(** * A broadcast server over WebSockets: registry, notifier and graceful shutdown

    Shallow embedding of [main.py]: the [ConnectionManager] registry, the
    periodic notifier, the status endpoint and the graceful shutdown, with the
    properties of the registry and of the shutdown sequence.

    The program runs on one asyncio event loop.  A coroutine runs without
    interruption from one [await] to the next; other tasks run only while it
    is suspended at an [await].  The embedding has two layers:

    - the methods of [ConnectionManager] as state transformers in a small
      state-and-exception monad (a call that runs with no other task touching
      the registry in between);
    - the coroutines cut at their [await]s, and a scheduler that resumes one
      task at a time, for everything that depends on interleaving. *)

From Stdlib Require Import List Arith Lia Bool String Permutation.
Import ListNotations.
Local Open Scope list_scope.

(** ** Data *)

(** The manager knows a [WebSocket] object by its identity only: [in] and
    [list.remove] compare with [==], which is object identity for these
    objects. *)
Definition WebSocket := nat.

(** [datetime] values, in seconds; [timedelta(minutes=30)] is [1800]. *)
Definition datetime := nat.

(** The exceptions the program meets.  All but [CancelledError] derive from
    [Exception]; [CancelledError] derives from [BaseException] only, so an
    [except Exception] clause lets it through. *)
Inductive exn :=
| WebSocketDisconnect
| RuntimeError
| ValueError
| TypeError
| CancelledError.

Definition is_Exception (e : exn) : bool :=
  match e with
  | CancelledError => false
  | _ => true
  end.

Inductive result (A : Type) :=
| Ok (a : A)
| Raise (e : exn).
Arguments Ok {A} a.
Arguments Raise {A} e.

(** One constructor per [logger] call of the source, with the values
    interpolated in its message.  The line of the polling loop also shows
    the time left, [int((deadline - datetime.utcnow()).total_seconds())],
    taken from a second reading of the clock, after the one of the loop
    test, and truncated; the clock of the embedding has whole seconds and
    one value per step, which does not determine that number, so the entry
    keeps the count only. *)
Inductive log_entry :=
| SignalReceived (signum : nat)
| NotificationTaskCancelled
| ClientConnected (total : nat)
| ClientDisconnected (remaining : nat)
| ErrorBroadcasting (e : exn)
| BroadcastingNotification (count : nat)
| ShutdownSignalReceived
| AllClientsDisconnected
| ClientsRemaining (count : nat).

(** The transport behind the [WebSocket] objects (the ASGI server and the
    network) is not part of the program.  It is a state [World] and the three
    awaited calls the program makes on a socket; each may raise. *)
Class Transport (World : Type) := {
  accept : WebSocket -> World -> result unit * World;
  send_text : WebSocket -> string -> World -> result unit * World;
  receive_text : WebSocket -> World -> result string * World
}.

(** What the [WebSocket] of the framework adds to that: the handshake is
    done once.  [accept] sends the ASGI message [websocket.accept], which the
    socket takes in its state [CONNECTING] only; once [accept] has returned
    on a socket, which [accepted] tells, a later [accept] on it raises
    [RuntimeError], and nothing the program calls takes a socket back to
    [CONNECTING]. *)
Class Handshake (World : Type) {transport : Transport World} := {
  accepted : World -> WebSocket -> bool;
  accept_marks : forall c w w',
    accept c w = (Ok tt, w') -> accepted w' c = true;
  accept_again : forall c w,
    accepted w c = true -> fst (accept c w) = Raise RuntimeError;
  accept_keeps : forall c c' w,
    accepted w c' = true -> accepted (snd (accept c w)) c' = true;
  send_text_keeps : forall c m c' w,
    accepted w c' = true -> accepted (snd (send_text c m w)) c' = true;
  receive_text_keeps : forall c c' w,
    accepted w c' = true -> accepted (snd (receive_text c w)) c' = true
}.

Definition test_notification : string := "Test notification"%string.
Definition shutdown_notice : string :=
  "Server is shutting down soon. Please reconnect later."%string.

(** [list.remove(x)]: drops the first item equal to [x]; [None] stands for
    the [ValueError] raised when there is none. *)
Fixpoint list_remove (x : WebSocket) (l : list WebSocket) : option (list WebSocket) :=
  match l with
  | [] => None
  | y :: t => if Nat.eqb x y then Some t
              else match list_remove x t with
                   | Some t' => Some (y :: t')
                   | None => None
                   end
  end.

Section Server.

Context {World : Type} {transport : Transport World}.

(** [app.state], the wall clock, the log written so far and the transport. *)
Record AppState := mkApp {
  active_connections : list WebSocket;      (* app.state.manager.active_connections *)
  shutdown_event : bool;                    (* app.state.shutdown_event.is_set() *)
  shutdown_requested_at : option datetime;  (* app.state.shutdown_requested_at *)
  utcnow : datetime;                        (* datetime.utcnow() *)
  log : list log_entry;
  world : World
}.

Definition set_connections (l : list WebSocket) (st : AppState) : AppState :=
  mkApp l (shutdown_event st) (shutdown_requested_at st) (utcnow st) (log st) (world st).
Definition set_event (st : AppState) : AppState :=
  mkApp (active_connections st) true (shutdown_requested_at st) (utcnow st) (log st) (world st).
Definition set_requested_at (t : datetime) (st : AppState) : AppState :=
  mkApp (active_connections st) (shutdown_event st) (Some t) (utcnow st) (log st) (world st).
Definition set_utcnow (t : datetime) (st : AppState) : AppState :=
  mkApp (active_connections st) (shutdown_event st) (shutdown_requested_at st) t (log st) (world st).
Definition add_log (e : log_entry) (st : AppState) : AppState :=
  mkApp (active_connections st) (shutdown_event st) (shutdown_requested_at st) (utcnow st)
        (log st ++ [e]) (world st).
Definition set_world (w : World) (st : AppState) : AppState :=
  mkApp (active_connections st) (shutdown_event st) (shutdown_requested_at st) (utcnow st)
        (log st) w.

(** ** The monad: state that survives an exception *)

Definition M (A : Type) := AppState -> result A * AppState.

Definition ret {A} (a : A) : M A := fun st => (Ok a, st).
Definition raise {A} (e : exn) : M A := fun st => (Raise e, st).
Definition bind {A B} (m : M A) (k : A -> M B) : M B :=
  fun st => match m st with
            | (Ok a, st') => k a st'
            | (Raise e, st') => (Raise e, st')
            end.
(** [try: ... except ...] seen from the handler: the outcome as a value. *)
Definition try_except {A} (m : M A) : M (result A) :=
  fun st => let (r, st') := m st in (Ok r, st').
Definition gets {A} (f : AppState -> A) : M A := fun st => (Ok (f st), st).
Definition modify (f : AppState -> AppState) : M unit := fun st => (Ok tt, f st).
Definition logger (e : log_entry) : M unit := modify (add_log e).

Notation "x <- m ;; k" := (bind m (fun x => k))
  (at level 61, m at next level, right associativity).
Notation "m ;; k" := (bind m (fun _ => k))
  (at level 61, right associativity).

(** The awaited socket calls, on the transport of the state. *)
Definition await_accept (websocket : WebSocket) : M unit :=
  fun st => let (r, w) := accept websocket (world st) in (r, set_world w st).
Definition await_send_text (websocket : WebSocket) (message : string) : M unit :=
  fun st => let (r, w) := send_text websocket message (world st) in (r, set_world w st).
Definition await_receive_text (websocket : WebSocket) : M string :=
  fun st => let (r, w) := receive_text websocket (world st) in (r, set_world w st).

(** ** ConnectionManager *)

Definition count (st : AppState) : nat := List.length (active_connections st).
Definition is_empty (st : AppState) : bool := Nat.eqb (List.length (active_connections st)) 0.

Definition connect (websocket : WebSocket) : M unit :=
  await_accept websocket ;;
  modify (fun st => set_connections (active_connections st ++ [websocket]) st) ;;
  n <- gets count ;;
  logger (ClientConnected n).

Definition disconnect (websocket : WebSocket) : M unit :=
  l <- gets active_connections ;;
  if in_dec Nat.eq_dec websocket l then
    match list_remove websocket l with
    | Some l' =>
        modify (set_connections l') ;;
        n <- gets count ;;
        logger (ClientDisconnected n)
    | None => raise ValueError
    end
  else ret tt.

(** The first loop of [broadcast], over the connections still to visit, for
    a pass during which no other task changes the list. *)
Fixpoint send_all (message : string) (connections disconnected : list WebSocket)
  : M (list WebSocket) :=
  match connections with
  | [] => ret disconnected
  | connection :: rest =>
      r <- try_except (await_send_text connection message) ;;
      match r with
      | Ok _ => send_all message rest disconnected
      | Raise e =>
          if is_Exception e then
            logger (ErrorBroadcasting e) ;;
            send_all message rest (disconnected ++ [connection])
          else raise e
      end
  end.

(** The second loop: [for conn in disconnected: self.disconnect(conn)]. *)
Fixpoint disconnect_all (disconnected : list WebSocket) : M unit :=
  match disconnected with
  | [] => ret tt
  | conn :: rest => disconnect conn ;; disconnect_all rest
  end.

Definition broadcast (message : string) : M unit :=
  l <- gets active_connections ;;
  disconnected <- send_all message l [] ;;
  disconnect_all disconnected.

(** Calls on the manager made one after another, each running to its end
    before the next starts.  Each call has its own caller (an endpoint, the
    notifier, the shutdown), so one that raises does not stop the next. *)
Inductive call :=
| Connect (websocket : WebSocket)
| Disconnect (websocket : WebSocket)
| Broadcast (message : string).

Definition run_call (c : call) : M unit :=
  match c with
  | Connect websocket => connect websocket
  | Disconnect websocket => disconnect websocket
  | Broadcast message => broadcast message
  end.

Fixpoint run_calls (calls : list call) (st : AppState) : AppState :=
  match calls with
  | [] => st
  | c :: rest => run_calls rest (snd (run_call c st))
  end.

(** ** The coroutines, cut at their awaits *)

(** A [broadcast] suspended at [await connection.send_text(message)]: the
    item the list iterator has just yielded, the index the iterator reads
    next, and [disconnected] so far. *)
Record sending := mkSending {
  message : string;
  connection : WebSocket;
  next_index : nat;
  disconnected : list WebSocket
}.

Inductive progress :=
| Sending (k : sending)
| Returned.

(** The head of [for connection in self.active_connections].  The iterator
    holds the list object and an index: each time around it reads the list as
    it is then.  Past the end the first loop is over and the second one, which
    has no [await], runs at once. *)
Definition broadcast_next (message : string) (i : nat) (disconnected : list WebSocket)
  : M progress :=
  l <- gets active_connections ;;
  match nth_error l i with
  | Some connection => ret (Sending (mkSending message connection (S i) disconnected))
  | None => disconnect_all disconnected ;; ret Returned
  end.

Definition broadcast_start (message : string) : M progress :=
  broadcast_next message 0 [].

(** Resuming at the [await]: the send returns or raises. *)
Definition broadcast_resume (k : sending) : M progress :=
  r <- try_except (await_send_text (connection k) (message k)) ;;
  match r with
  | Ok _ => broadcast_next (message k) (next_index k) (disconnected k)
  | Raise e =>
      if is_Exception e then
        logger (ErrorBroadcasting e) ;;
        broadcast_next (message k) (next_index k) (disconnected k ++ [connection k])
      else raise e
  end.


(** *** graceful_shutdown *)

Inductive shutdown_coro :=
| ShutdownCreated                                (* not yet entered *)
| ShutdownSending (k : sending)                  (* in [broadcast] *)
| ShutdownSleeping (deadline wake : datetime)    (* at [await asyncio.sleep(5)] *)
| ShutdownDone (r : result unit).

(** The polling loop, from its test; [asyncio.sleep(5)] ends five seconds
    after it starts at the earliest. *)
Definition poll (deadline : datetime) : M shutdown_coro :=
  now <- gets utcnow ;;
  if now <? deadline then
    empty <- gets is_empty ;;
    if empty then
      logger AllClientsDisconnected ;;
      modify set_event ;;
      ret (ShutdownDone (Ok tt))
    else
      n <- gets count ;;
      logger (ClientsRemaining n) ;;
      ret (ShutdownSleeping deadline (now + 5))
  else
    modify set_event ;;
    ret (ShutdownDone (Ok tt)).

(** After [broadcast] returns: the deadline is computed from what
    [app.state.shutdown_requested_at] holds then, [timedelta(minutes=30)]
    later. *)
Definition shutdown_after (p : progress) : M shutdown_coro :=
  match p with
  | Sending k => ret (ShutdownSending k)
  | Returned =>
      t <- gets shutdown_requested_at ;;
      match t with
      | Some requested_at => poll (requested_at + 1800)
      | None => raise TypeError
      end
  end.

Definition graceful_shutdown (t : shutdown_coro) : M shutdown_coro :=
  match t with
  | ShutdownCreated =>
      now <- gets utcnow ;;
      modify (set_requested_at now) ;;
      logger ShutdownSignalReceived ;;
      p <- broadcast_start shutdown_notice ;;
      shutdown_after p
  | ShutdownSending k =>
      p <- broadcast_resume k ;;
      shutdown_after p
  | ShutdownSleeping deadline _ => poll deadline
  | ShutdownDone r => ret (ShutdownDone r)
  end.

(** *** notify_clients_periodically *)

Inductive notify_coro :=
| NotifyCreated
| NotifySleeping (wake : datetime)               (* at [await asyncio.sleep(10)] *)
| NotifySending (k : sending)                    (* in [broadcast] *)
| NotifyDone (r : result unit).

(** The [while] test and, when it passes, the sleep. *)
Definition notify_loop : M notify_coro :=
  stop <- gets shutdown_event ;;
  if stop then ret (NotifyDone (Ok tt))
  else
    now <- gets utcnow ;;
    ret (NotifySleeping (now + 10)).

Definition notify_after (p : progress) : M notify_coro :=
  match p with
  | Sending k => ret (NotifySending k)
  | Returned => notify_loop
  end.

Definition notify_clients_periodically (t : notify_coro) : M notify_coro :=
  match t with
  | NotifyCreated => notify_loop
  | NotifySleeping _ =>
      n <- gets count ;;
      if 0 <? n then
        logger (BroadcastingNotification n) ;;
        p <- broadcast_start test_notification ;;
        notify_after p
      else notify_loop
  | NotifySending k =>
      p <- broadcast_resume k ;;
      notify_after p
  | NotifyDone r => ret (NotifyDone r)
  end.

(** *** websocket_endpoint *)

Inductive endpoint_coro :=
| Accepting (websocket : WebSocket)              (* in [connect], at [await websocket.accept()] *)
| Receiving (websocket : WebSocket)              (* at [await websocket.receive_text()] *)
| EndpointDone (r : result unit).

Definition websocket_endpoint (t : endpoint_coro) : M endpoint_coro :=
  match t with
  | Accepting websocket =>
      connect websocket ;;
      ret (Receiving websocket)
  | Receiving websocket =>
      r <- try_except (await_receive_text websocket) ;;
      match r with
      | Ok _ => ret (Receiving websocket)
      | Raise WebSocketDisconnect =>
          disconnect websocket ;;
          ret (EndpointDone (Ok tt))
      | Raise e => raise e
      end
  | EndpointDone r => ret (EndpointDone r)
  end.

(** *** get_status *)

(** The JSON object of [/status]; the ISO string of a [datetime] stands as
    the [datetime] itself. *)
Record status := mkStatus {
  status_active_connections : nat;
  status_shutdown_requested : bool;
  status_shutdown_requested_at : option datetime
}.

Definition get_status (st : AppState) : status :=
  let shutdown_time :=
    match shutdown_requested_at st with
    | Some t => Some t
    | None => None
    end in
  mkStatus (count st) (shutdown_event st) shutdown_time.

(** ** The event loop *)

(** Running a task up to its next [await]; an exception that leaves the
    coroutine ends the task with it. *)
Definition step_shutdown (t : shutdown_coro) (st : AppState) : shutdown_coro * AppState :=
  match graceful_shutdown t st with
  | (Ok t', st') => (t', st')
  | (Raise e, st') => (ShutdownDone (Raise e), st')
  end.

Definition step_notify (t : notify_coro) (st : AppState) : notify_coro * AppState :=
  match notify_clients_periodically t st with
  | (Ok t', st') => (t', st')
  | (Raise e, st') => (NotifyDone (Raise e), st')
  end.

Definition step_endpoint (t : endpoint_coro) (st : AppState) : endpoint_coro * AppState :=
  match websocket_endpoint t st with
  | (Ok t', st') => (t', st')
  | (Raise e, st') => (EndpointDone (Raise e), st')
  end.

(** [lifespan] after its [yield]. *)
Inductive lifespan_coro :=
| Serving                                        (* at [yield] *)
| ShuttingDown (t : shutdown_coro)               (* in [await graceful_shutdown(app)] *)
| AwaitingNotify                                 (* at [await notify_task] *)
| LifespanDone (r : result unit).

Record Server := mkServer {
  app : AppState;
  lifespan : lifespan_coro;
  notify_task : notify_coro;
  cancel_requested : bool;             (* [notify_task.cancel()] called, not yet delivered *)
  signal_tasks : list shutdown_coro;   (* the tasks [handle_signal] created *)
  endpoints : list endpoint_coro       (* the i-th serves WebSocket i *)
}.

Definition with_app (st : AppState) (s : Server) : Server :=
  mkServer st (lifespan s) (notify_task s) (cancel_requested s) (signal_tasks s) (endpoints s).
Definition with_lifespan (t : lifespan_coro) (s : Server) : Server :=
  mkServer (app s) t (notify_task s) (cancel_requested s) (signal_tasks s) (endpoints s).
Definition with_notify (t : notify_coro) (c : bool) (s : Server) : Server :=
  mkServer (app s) (lifespan s) t c (signal_tasks s) (endpoints s).
Definition with_signal_tasks (l : list shutdown_coro) (s : Server) : Server :=
  mkServer (app s) (lifespan s) (notify_task s) (cancel_requested s) l (endpoints s).
Definition with_endpoints (l : list endpoint_coro) (s : Server) : Server :=
  mkServer (app s) (lifespan s) (notify_task s) (cancel_requested s) (signal_tasks s) l.

(** [lifespan] up to its [yield]: a fresh manager, the event unset, no
    timestamp, the handlers installed, the notifier created. *)
Definition startup (now : datetime) (w : World) : Server :=
  mkServer (mkApp [] false None now [] w) Serving NotifyCreated false [] [].

Fixpoint set_nth {A} (i : nat) (x : A) (l : list A) : list A :=
  match l, i with
  | [], _ => []
  | _ :: t, 0 => x :: t
  | y :: t, S j => y :: set_nth j x t
  end.

(** Whether the awaited thing has happened.  A send or an accept may
    complete at any time; a sleep completes when its time has come. *)
Definition shutdown_ready (now : datetime) (t : shutdown_coro) : bool :=
  match t with
  | ShutdownCreated | ShutdownSending _ => true
  | ShutdownSleeping _ wake => wake <=? now
  | ShutdownDone _ => false
  end.

Definition notify_ready (now : datetime) (cancelled : bool) (t : notify_coro) : bool :=
  match t with
  | NotifyCreated | NotifySending _ => true
  | NotifySleeping wake => cancelled || (wake <=? now)
  | NotifyDone _ => false
  end.

Definition endpoint_ready (t : endpoint_coro) : bool :=
  match t with
  | Accepting _ | Receiving _ => true
  | EndpointDone _ => false
  end.

Definition handle_signal (signum : nat) (s : Server) : Server :=
  if shutdown_event (app s) then s
  else with_signal_tasks (signal_tasks s ++ [ShutdownCreated])
         (with_app (add_log (SignalReceived signum) (app s)) s).

(** [notify_task.cancel()]: nothing on a finished task. *)
Definition cancel (s : Server) : Server :=
  match notify_task s with
  | NotifyDone _ => s
  | t => with_notify t true s
  end.

(** [try: await notify_task / except asyncio.CancelledError: ...].  Awaiting
    a finished task does not suspend. *)
Definition await_notify_task (s : Server) : Server :=
  match notify_task s with
  | NotifyDone (Ok _) => with_lifespan (LifespanDone (Ok tt)) s
  | NotifyDone (Raise CancelledError) =>
      with_lifespan (LifespanDone (Ok tt))
        (with_app (add_log NotificationTaskCancelled (app s)) s)
  | NotifyDone (Raise e) => with_lifespan (LifespanDone (Raise e)) s
  | _ => with_lifespan AwaitingNotify s
  end.

(** [lifespan] once its [graceful_shutdown] has run up to [t]. *)
Definition lifespan_after (t : shutdown_coro) (s : Server) : Server :=
  match t with
  | ShutdownDone (Ok _) => await_notify_task (cancel s)
  | ShutdownDone (Raise e) => with_lifespan (LifespanDone (Raise e)) s
  | _ => with_lifespan (ShuttingDown t) s
  end.

(** What can happen next: time passes, a client opens [/ws], a signal
    arrives, the server leaves the [yield] of [lifespan], or the loop resumes
    one task whose awaited thing has happened. *)
Inductive event :=
| Tick (seconds : nat)
| Open
| Endpoint (i : nat)
| Notify
| Signal (signum : nat)
| SignalTask (i : nat)
| Exit
| Lifespan.

Definition step (e : event) (s : Server) : option Server :=
  let now := utcnow (app s) in
  match e with
  | Tick seconds => Some (with_app (set_utcnow (now + seconds) (app s)) s)
  | Open =>
      Some (with_endpoints (endpoints s ++ [Accepting (List.length (endpoints s))]) s)
  | Endpoint i =>
      match nth_error (endpoints s) i with
      | Some t =>
          if endpoint_ready t then
            let (t', st') := step_endpoint t (app s) in
            Some (with_endpoints (set_nth i t' (endpoints s)) (with_app st' s))
          else None
      | None => None
      end
  | Notify =>
      if notify_ready now (cancel_requested s) (notify_task s) then
        if cancel_requested s then
          Some (with_notify (NotifyDone (Raise CancelledError)) false s)
        else
          let (t', st') := step_notify (notify_task s) (app s) in
          Some (with_notify t' false (with_app st' s))
      else None
  | Signal signum => Some (handle_signal signum s)
  | SignalTask i =>
      match nth_error (signal_tasks s) i with
      | Some t =>
          if shutdown_ready now t then
            let (t', st') := step_shutdown t (app s) in
            Some (with_signal_tasks (set_nth i t' (signal_tasks s)) (with_app st' s))
          else None
      | None => None
      end
  | Exit =>
      match lifespan s with
      | Serving =>
          let (t', st') := step_shutdown ShutdownCreated (app s) in
          Some (lifespan_after t' (with_app st' s))
      | _ => None
      end
  | Lifespan =>
      match lifespan s with
      | ShuttingDown t =>
          if shutdown_ready now t then
            let (t', st') := step_shutdown t (app s) in
            Some (lifespan_after t' (with_app st' s))
          else None
      | AwaitingNotify =>
          match notify_task s with
          | NotifyDone _ => Some (await_notify_task s)
          | _ => None
          end
      | _ => None
      end
  end.

Fixpoint run (events : list event) (s : Server) : option Server :=
  match events with
  | [] => Some s
  | e :: rest =>
      match step e s with
      | Some s' => run rest s'
      | None => None
      end
  end.

(** ** What a pass meets, and what the calls add and remove *)

(** What the transport answers along one uninterrupted pass over
    [connections]: each connection with the outcome of its send, and the
    transport once the pass is over. *)
Fixpoint send_outcomes (message : string) (connections : list WebSocket) (w : World)
  : list (WebSocket * result unit) :=
  match connections with
  | [] => []
  | connection :: rest =>
      let (r, w') := send_text connection message w in
      (connection, r) :: send_outcomes message rest w'
  end.

Fixpoint world_after (message : string) (connections : list WebSocket) (w : World) : World :=
  match connections with
  | [] => w
  | connection :: rest => world_after message rest (snd (send_text connection message w))
  end.

Definition send_failed (o : WebSocket * result unit) : bool :=
  match snd o with
  | Ok _ => false
  | Raise _ => true
  end.

(** The connections whose send failed, in the order of the pass. *)
Definition failed_members (outcomes : list (WebSocket * result unit)) : list WebSocket :=
  map fst (filter send_failed outcomes).

(** The exceptions of the failed sends, in the order of the pass. *)
Fixpoint send_errors (outcomes : list (WebSocket * result unit)) : list exn :=
  match outcomes with
  | [] => []
  | (_, Ok _) :: t => send_errors t
  | (_, Raise e) :: t => e :: send_errors t
  end.

(** The send returned, or raised something [except Exception] catches. *)
Definition soft (o : WebSocket * result unit) : bool :=
  match snd o with
  | Ok _ => true
  | Raise e => is_Exception e
  end.

(** A send failure is an [Exception]. *)
Definition send_failure_only (o : WebSocket * result unit) : Prop := soft o = true.

(** The removes of the clean-up loop of [broadcast] that find their member,
    on the list [l]. *)
Fixpoint effective_removals (disconnected l : list WebSocket) : nat :=
  match disconnected with
  | [] => 0
  | conn :: rest =>
      match list_remove conn l with
      | Some l' => S (effective_removals rest l')
      | None => effective_removals rest l
      end
  end.

(** What one call adds: a [connect] adds one when its [accept] returns. *)
Definition added (c : call) (st : AppState) : nat :=
  match c with
  | Connect websocket =>
      match fst (accept websocket (world st)) with
      | Ok _ => 1
      | Raise _ => 0
      end
  | _ => 0
  end.

(** What one call effectively removes: a [disconnect] removes one when its
    member is there; a [broadcast] that reaches its clean-up removes what the
    [disconnect]s of the clean-up find. *)
Definition removed (c : call) (st : AppState) : nat :=
  match c with
  | Connect _ => 0
  | Disconnect websocket =>
      if in_dec Nat.eq_dec websocket (active_connections st) then 1 else 0
  | Broadcast message =>
      let outcomes := send_outcomes message (active_connections st) (world st) in
      if forallb soft outcomes
      then effective_removals (failed_members outcomes) (active_connections st)
      else 0
  end.

Fixpoint total_added (calls : list call) (st : AppState) : nat :=
  match calls with
  | [] => 0
  | c :: rest => added c st + total_added rest (snd (run_call c st))
  end.

Fixpoint total_removed (calls : list call) (st : AppState) : nat :=
  match calls with
  | [] => 0
  | c :: rest => removed c st + total_removed rest (snd (run_call c st))
  end.

(** The log lines of effective adds and of effective removes: [connect]
    writes its line when it has appended, [disconnect] when it has removed. *)
Fixpoint adds (l : list log_entry) : nat :=
  match l with
  | [] => 0
  | ClientConnected _ :: t => S (adds t)
  | _ :: t => adds t
  end.

Fixpoint effective_removes (l : list log_entry) : nat :=
  match l with
  | [] => 0
  | ClientDisconnected _ :: t => S (effective_removes t)
  | _ :: t => effective_removes t
  end.

(** The lines that announce neither an add, nor a remove, nor a periodic
    broadcast. *)
Definition plain (e : log_entry) : bool :=
  match e with
  | ClientConnected _ | ClientDisconnected _ | BroadcastingNotification _ => false
  | _ => true
  end.

(** The periodic broadcasts started so far: one
    ["Broadcasting notification to ..."] line each. *)
Fixpoint periodic_broadcasts (l : list log_entry) : nat :=
  match l with
  | [] => 0
  | BroadcastingNotification _ :: t => S (periodic_broadcasts t)
  | _ :: t => periodic_broadcasts t
  end.

(** ** Predicates of the statements and proofs *)

(** A call keeps [R] when [R] relates the state it starts in to the state it
    leaves, whether it returns or raises. *)
Definition keeps (R : AppState -> AppState -> Prop) {A} (m : M A) : Prop :=
  forall st, R st (snd (m st)).

(** The count agrees with the log. *)
Definition balanced (st : AppState) : Prop :=
  count st + effective_removes (log st) = adds (log st).

Definition stays_balanced (a b : AppState) : Prop := balanced a -> balanced b.

(** What the calls leave alone while they send. *)
Definition same_registry (a b : AppState) : Prop :=
  active_connections b = active_connections a /\
  adds (log b) = adds (log a) /\
  effective_removes (log b) = effective_removes (log a).

(** What every step other than the notifier's wake-up keeps: the event stays
    set and no periodic broadcast is announced. *)
Definition calm (a b : AppState) : Prop :=
  (shutdown_event a = true -> shutdown_event b = true) /\
  periodic_broadcasts (log b) = periodic_broadcasts (log a).

(** A sleeping notifier may still have one broadcast to start. *)
Definition pending (t : notify_coro) : nat :=
  match t with
  | NotifySleeping _ => 1
  | _ => 0
  end.

Definition outstanding (s : Server) : nat :=
  if cancel_requested s then 0 else pending (notify_task s).

(** The measure that no step raises once the event is set: the broadcasts
    announced, plus the one a sleeping, uncancelled notifier may still
    start. *)
Definition announced (s : Server) : nat :=
  periodic_broadcasts (log (app s)) + outstanding s.

(** The lifespan finishes normally only once the notifier has ended. *)
Definition awaited (s : Server) : Prop :=
  lifespan s = LifespanDone (Ok tt) -> exists r, notify_task s = NotifyDone r.

(** Once [lifespan] is past its [graceful_shutdown] it has called
    [notify_task.cancel()]: the request is pending, or the task has ended. *)
Definition called_off (s : Server) : Prop :=
  lifespan s = AwaitingNotify \/ lifespan s = LifespanDone (Ok tt) ->
  cancel_requested s = true \/ exists r, notify_task s = NotifyDone r.

(** A shutdown has been asked for: the timestamp is there. *)
Definition entered (st : AppState) : Prop := shutdown_requested_at st <> None.

Definition stays_entered (a b : AppState) : Prop := entered a -> entered b.

(** What the steps of the endpoints and of the notifier leave alone. *)
Definition same_shutdown (a b : AppState) : Prop :=
  shutdown_event b = shutdown_event a /\
  shutdown_requested_at b = shutdown_requested_at a.

(** A [graceful_shutdown] past its first line. *)
Definition started (t : shutdown_coro) : Prop :=
  match t with
  | ShutdownSending _ | ShutdownSleeping _ _ => True
  | _ => False
  end.

(** The timestamp is there once the event is set or a [graceful_shutdown]
    is under way. *)
Definition timestamped (s : Server) : Prop :=
  (shutdown_event (app s) = true -> entered (app s)) /\
  (forall t, In t (signal_tasks s) -> started t -> entered (app s)) /\
  (forall t, lifespan s = ShuttingDown t -> started t -> entered (app s)).

(** Members only leave. *)
Definition shrinks (a b : AppState) : Prop :=
  (forall w, In w (active_connections b) -> In w (active_connections a)) /\
  (NoDup (active_connections a) -> NoDup (active_connections b)).

(** Every websocket is listed at most once, and none before its endpoint
    has called [connect]. *)
Definition distinct (s : Server) : Prop :=
  NoDup (active_connections (app s)) /\
  (forall w, In w (active_connections (app s)) -> w < List.length (endpoints s)) /\
  (forall i w, nth_error (endpoints s) i = Some (Accepting w) ->
               w = i /\ ~ In i (active_connections (app s))) /\
  (forall i w, nth_error (endpoints s) i = Some (Receiving w) -> w = i).

(** The rounds of a drain seen from outside: five seconds pass, then the
    loop resumes the [i]-th shutdown task, [k] times over. *)
Fixpoint poll_rounds (i k : nat) : list event :=
  match k with
  | 0 => []
  | S k' => Tick 5 :: SignalTask i :: poll_rounds i k'
  end.

(** The websockets whose endpoint has handled [WebSocketDisconnect], or has
    ended with it before it was through [connect], are not listed. *)
Definition departed (s : Server) : Prop :=
  forall i, nth_error (endpoints s) i = Some (EndpointDone (Ok tt)) \/
            nth_error (endpoints s) i = Some (EndpointDone (Raise WebSocketDisconnect)) ->
            ~ In i (active_connections (app s)).

(** Whatever has returned has seen the event set: the notifier, the
    shutdowns the signals started, and [lifespan] past its own shutdown. *)
Definition concluded (s : Server) : Prop :=
  (notify_task s = NotifyDone (Ok tt) -> shutdown_event (app s) = true) /\
  (In (ShutdownDone (Ok tt)) (signal_tasks s) -> shutdown_event (app s) = true) /\
  (lifespan s = AwaitingNotify \/ lifespan s = LifespanDone (Ok tt) ->
   shutdown_event (app s) = true).

(** The two texts the program passes to [send_text]. *)
Definition known (text : string) : Prop :=
  text = test_notification \/ text = shutdown_notice.

(** A coroutine suspended in a [broadcast] holds one of the two. *)
Definition carries (t : shutdown_coro) : Prop :=
  match t with
  | ShutdownSending k => known (message k)
  | _ => True
  end.

Definition notify_carries (t : notify_coro) : Prop :=
  match t with
  | NotifySending k => known (message k)
  | _ => True
  end.

Definition sending_known (s : Server) : Prop :=
  notify_carries (notify_task s) /\
  Forall carries (signal_tasks s) /\
  (forall t, lifespan s = ShuttingDown t -> carries t).

(** [sent] reads off the transport what has been sent so far: from [a] to
    [b] it has grown by known texts only. *)
Definition grows (sent : World -> list (WebSocket * string)) (a b : AppState) : Prop :=
  exists more,
    sent (world b) = sent (world a) ++ more /\
    Forall (fun p => known (snd p)) more.

(** Once the event is set no signal starts a shutdown: what a step keeps. *)
Definition settled (s s' : Server) : Prop :=
  shutdown_event (app s') = true /\
  List.length (signal_tasks s') = List.length (signal_tasks s).

End Server.

Arguments AppState World : clear implicits.
Arguments Server World : clear implicits.
Arguments M World A : clear implicits.

(** Every listed websocket has been accepted. *)
Definition handshaken {World : Type} {transport : Transport World}
  {handshake : Handshake World} (st : AppState World) : Prop :=
  forall c, In c (active_connections st) -> accepted (world st) c = true.

(** ** A transport to run the program on

    The sockets in [connected] have been accepted.  [accept] returns on a
    socket that has not been accepted yet and raises [RuntimeError] on one
    that has; sending to a socket or receiving from it before its [accept]
    raises [RuntimeError] too.  Sockets in [gone] have lost their peer:
    sending to them or receiving from them raises [WebSocketDisconnect].
    The others take every message, recorded in [delivered], and receive a
    ping. *)
Module Net.

Record t := mk {
  gone : list WebSocket;
  delivered : list (WebSocket * string);
  connected : list WebSocket
}.

Definition lost (websocket : WebSocket) (n : t) : bool :=
  existsb (Nat.eqb websocket) (gone n).

Definition is_connected (n : t) (websocket : WebSocket) : bool :=
  existsb (Nat.eqb websocket) (connected n).

#[global] Instance transport : Transport t := {
  accept websocket n :=
    if is_connected n websocket then (Raise RuntimeError, n)
    else (Ok tt, mk (gone n) (delivered n) (connected n ++ [websocket]));
  send_text websocket message n :=
    if negb (is_connected n websocket) then (Raise RuntimeError, n)
    else if lost websocket n then (Raise WebSocketDisconnect, n)
    else (Ok tt, mk (gone n) (delivered n ++ [(websocket, message)]) (connected n));
  receive_text websocket n :=
    if negb (is_connected n websocket) then (Raise RuntimeError, n)
    else if lost websocket n then (Raise WebSocketDisconnect, n)
    else (Ok "ping"%string, n)
}.

#[global] Instance handshake : Handshake t.
Proof.
  refine {| accepted := is_connected |}.
  - intros c w w'. cbn -[is_connected]. destruct (is_connected w c); [discriminate|].
    intros [= <-]. unfold is_connected. cbn [connected].
    rewrite existsb_app. simpl. rewrite Nat.eqb_refl. now rewrite orb_true_r.
  - intros c w H. cbn -[is_connected]. now rewrite H.
  - intros c c' w H. cbn -[is_connected]. destruct (is_connected w c); [exact H|].
    unfold is_connected in *. cbn [connected snd].
    rewrite existsb_app. apply orb_true_iff. left. exact H.
  - intros c m c' w H. cbn -[is_connected lost].
    destruct (is_connected w c); [|exact H]. destruct (lost c w); exact H.
  - intros c c' w H. cbn -[is_connected lost].
    destruct (is_connected w c); [|exact H]. destruct (lost c w); exact H.
Defined.

End Net.

(** A manager holding [l], each of them accepted, nothing logged yet, the
    peers of [gone] lost. *)
Definition manager_on (l gone : list WebSocket) : AppState Net.t :=
  mkApp l false None 0 [] (Net.mk gone [] l).

(** The server right after start-up, at time [0]. *)
Definition server_on (gone : list WebSocket) : Server Net.t :=
  startup 0 (Net.mk gone [] []).

(** A transport on which the awaiting task is cancelled: the first
    [budget] sends go through, recorded in [sent]; from then on a send or a
    receive raises [CancelledError].  The handshake is as on [Net]. *)
Module Cut.

Record t := mk {
  budget : nat;
  sent : list (WebSocket * string);
  connected : list WebSocket
}.

Definition is_connected (n : t) (websocket : WebSocket) : bool :=
  existsb (Nat.eqb websocket) (connected n).

#[global] Instance transport : Transport t := {
  accept websocket n :=
    if is_connected n websocket then (Raise RuntimeError, n)
    else (Ok tt, mk (budget n) (sent n) (connected n ++ [websocket]));
  send_text websocket message n :=
    if negb (is_connected n websocket) then (Raise RuntimeError, n)
    else match budget n with
         | 0 => (Raise CancelledError, n)
         | S b => (Ok tt, mk b (sent n ++ [(websocket, message)]) (connected n))
         end;
  receive_text websocket n :=
    if negb (is_connected n websocket) then (Raise RuntimeError, n)
    else match budget n with
         | 0 => (Raise CancelledError, n)
         | S _ => (Ok "ping"%string, n)
         end
}.

#[global] Instance handshake : Handshake t.
Proof.
  refine {| accepted := is_connected |}.
  - intros c w w'. cbn -[is_connected]. destruct (is_connected w c); [discriminate|].
    intros [= <-]. unfold is_connected. cbn [connected].
    rewrite existsb_app. simpl. rewrite Nat.eqb_refl. now rewrite orb_true_r.
  - intros c w H. cbn -[is_connected]. now rewrite H.
  - intros c c' w H. cbn -[is_connected]. destruct (is_connected w c); [exact H|].
    unfold is_connected in *. cbn [connected snd].
    rewrite existsb_app. apply orb_true_iff. left. exact H.
  - intros c m c' w H. cbn -[is_connected].
    destruct (is_connected w c); [|exact H]. destruct (budget w); exact H.
  - intros c c' w H. cbn -[is_connected].
    destruct (is_connected w c); [|exact H]. destruct (budget w); exact H.
Defined.

End Cut.

(** A manager holding [l], each of them accepted, whose task is cancelled at
    send number [budget]. *)
Definition manager_cut (l : list WebSocket) (budget : nat) : AppState Cut.t :=
  mkApp l false None 0 [] (Cut.mk budget [] l).

(** * Properties *)

(** ** Lists *)

Lemma list_remove_In x l :
  In x l -> exists l', list_remove x l = Some l' /\ Permutation l (x :: l').
Proof.
  induction l as [|y t IH]; simpl; [tauto|].
  intros H. destruct (Nat.eqb_spec x y) as [->|Hne].
  - exists t. split; reflexivity.
  - destruct H as [H|H]; [congruence|].
    destruct (IH H) as (t' & -> & HP).
    exists (y :: t'). split; [reflexivity|].
    rewrite HP. apply perm_swap.
Qed.

Lemma filter_split {A} (f : A -> bool) (l : list A) :
  Permutation l (filter f l ++ filter (fun x => negb (f x)) l).
Proof.
  induction l as [|a l IH]; simpl; [constructor|].
  destruct (f a); simpl.
  - now constructor.
  - now apply Permutation_cons_app.
Qed.

Lemma removal_lines (m k : nat) :
  ClientDisconnected m :: map (fun i => ClientDisconnected (m - i)) (seq 1 k) =
  map (fun i => ClientDisconnected (S m - i)) (seq 1 (S k)).
Proof.
  cbn [seq map]. f_equal.
  - f_equal. lia.
  - rewrite <- (seq_shift k 1), map_map. reflexivity.
Qed.

Section Properties.

Context {World : Type} {transport : Transport World}.

Notation "x <- m ;; k" := (bind m (fun x => k))
  (at level 61, m at next level, right associativity).

Ltac run_monad :=
  unfold bind, ret, raise, try_except, gets, modify, logger; simpl.

(** ** Equations of the monad, at a state *)

Lemma bind_assoc {A B C} (m : M World A) (k : A -> M World B) (h : B -> M World C) st :
  bind (bind m k) h st = bind m (fun a => bind (k a) h) st.
Proof. unfold bind. now destruct (m st) as [[a|e] st']. Qed.


Lemma bind_try {A B} (m : M World A) (k : result A -> M World B) st :
  bind (try_except m) k st = k (fst (m st)) (snd (m st)).
Proof. unfold bind, try_except. now destruct (m st). Qed.

Lemma bind_logger {B} e (k : unit -> M World B) st :
  bind (logger e) k st = k tt (add_log e st).
Proof. reflexivity. Qed.

Lemma bind_modify {B} f (k : unit -> M World B) st :
  bind (modify f) k st = k tt (f st).
Proof. reflexivity. Qed.

Lemma bind_value {A B} (m : M World A) (k : A -> M World B) st a st' :
  m st = (Ok a, st') -> bind m k st = k a st'.
Proof. intros H. unfold bind. now rewrite H. Qed.

(** ** disconnect *)

Lemma disconnect_present (w : WebSocket) (st : AppState World) :
  In w (active_connections st) ->
  exists l', list_remove w (active_connections st) = Some l' /\
    Permutation (active_connections st) (w :: l') /\
    disconnect w st =
      (Ok tt, add_log (ClientDisconnected (List.length l')) (set_connections l' st)).
Proof.
  intros Hin. destruct (list_remove_In _ _ Hin) as (l' & Hrm & HP).
  exists l'. repeat split; trivial.
  unfold disconnect. run_monad.
  destruct (in_dec Nat.eq_dec w (active_connections st)); [|contradiction].
  now rewrite Hrm.
Qed.

Lemma disconnect_absent (w : WebSocket) (st : AppState World) :
  ~ In w (active_connections st) -> disconnect w st = (Ok tt, st).
Proof.
  intros Hn. unfold disconnect. run_monad.
  now destruct (in_dec Nat.eq_dec w (active_connections st)).
Qed.

(** ** broadcast, uninterrupted *)

Lemma send_outcomes_fst message l (w : World) :
  map fst (send_outcomes message l w) = l.
Proof.
  revert w. induction l as [|c l IH]; intros w; simpl; [reflexivity|].
  destruct (send_text c message w) as [r w']. simpl. now rewrite IH.
Qed.

Lemma failed_members_sub (outs : list (WebSocket * result unit)) :
  exists rest, Permutation (map fst outs) (failed_members outs ++ rest).
Proof.
  exists (map fst (filter (fun o => negb (send_failed o)) outs)).
  unfold failed_members. rewrite <- map_app.
  apply Permutation_map, filter_split.
Qed.

(** The first loop: it appends the failed members to [disconnected], logs
    one error per failure, hands the transport on and touches nothing else. *)
Lemma send_all_spec message l : forall disc (st : AppState World),
  Forall send_failure_only (send_outcomes message l (world st)) ->
  send_all message l disc st =
    (Ok (disc ++ failed_members (send_outcomes message l (world st))),
     mkApp (active_connections st) (shutdown_event st) (shutdown_requested_at st)
           (utcnow st)
           (log st ++ map ErrorBroadcasting (send_errors (send_outcomes message l (world st))))
           (world_after message l (world st))).
Proof.
  induction l as [|c l IH]; intros disc st Hall; simpl.
  - run_monad. rewrite !app_nil_r. now destruct st.
  - unfold bind at 1. unfold try_except, await_send_text.
    simpl in Hall.
    destruct (send_text c message (world st)) as [[u|e] w'] eqn:Hs;
      inversion Hall as [|? ? Ho Hrest]; subst; simpl in *.
    + rewrite IH by exact Hrest. reflexivity.
    + unfold send_failure_only, soft in Ho. simpl in Ho. rewrite Ho.
      run_monad. rewrite IH by exact Hrest. simpl.
      unfold failed_members. simpl. rewrite <- !app_assoc. reflexivity.
Qed.

(** The second loop, when every item of [disconnected] stands for an entry
    of its own in the list: each removal is effective. *)
Lemma disconnect_all_spec disc : forall (st : AppState World) rest,
  Permutation (active_connections st) (disc ++ rest) ->
  exists l',
    Permutation l' rest /\
    disconnect_all disc st =
      (Ok tt,
       mkApp l' (shutdown_event st) (shutdown_requested_at st) (utcnow st)
             (log st ++ map (fun i => ClientDisconnected (count st - i))
                            (seq 1 (List.length disc)))
             (world st)).
Proof.
  induction disc as [|c disc IH]; intros st rest HP.
  - exists (active_connections st). split; [exact HP|].
    simpl. run_monad. rewrite app_nil_r. now destruct st.
  - assert (Hin : In c (active_connections st)).
    { eapply Permutation_in; [symmetry; exact HP|]. now left. }
    destruct (disconnect_present c st Hin) as (l1 & _ & HP1 & Hd).
    cbn [disconnect_all List.length]. unfold bind at 1. rewrite Hd.
    assert (HP2 : Permutation l1 (disc ++ rest)).
    { eapply Permutation_cons_inv. rewrite <- HP1. exact HP. }
    destruct (IH (add_log (ClientDisconnected (List.length l1)) (set_connections l1 st))
                 rest HP2) as (l' & HPl & ->).
    exists l'. split; [exact HPl|].
    assert (Hlen : count st = S (List.length l1)).
    { unfold count. now rewrite (Permutation_length HP1). }
    rewrite Hlen, <- removal_lines.
    unfold count, add_log, set_connections. cbn [active_connections shutdown_event
      shutdown_requested_at utcnow log world List.length].
    rewrite <- app_assoc. reflexivity.
Qed.

(** ** Relations every step of a call keeps

    [R] relates a state to a later one.  When [R] is a preorder that the
    primitive updates respect, every manager call respects it. *)
Section Keeps.

Variable R : AppState World -> AppState World -> Prop.
Hypothesis R_refl : forall st, R st st.
Hypothesis R_trans : forall a b c, R a b -> R b c -> R a c.

Lemma keeps_ret {A} (a : A) : keeps R (ret a).
Proof. intros st. apply R_refl. Qed.

Lemma keeps_raise {A} (e : exn) : keeps R (@raise World A e).
Proof. intros st. apply R_refl. Qed.

Lemma keeps_gets {A} (f : AppState World -> A) : keeps R (gets f).
Proof. intros st. apply R_refl. Qed.

Lemma keeps_modify (f : AppState World -> AppState World) :
  (forall st, R st (f st)) -> keeps R (modify f).
Proof. intros H st. apply H. Qed.

Lemma keeps_bind {A B} (m : M World A) (k : A -> M World B) :
  keeps R m -> (forall a, keeps R (k a)) -> keeps R (bind m k).
Proof.
  intros Hm Hk st. unfold bind. specialize (Hm st).
  destruct (m st) as [[a|e] st']; simpl in *; [|exact Hm].
  eapply R_trans; [exact Hm|apply Hk].
Qed.

Lemma keeps_try {A} (m : M World A) : keeps R m -> keeps R (try_except m).
Proof.
  intros Hm st. unfold try_except. specialize (Hm st).
  now destruct (m st) as [r st'].
Qed.

Hypothesis R_world : forall w st, R st (set_world w st).
Hypothesis R_error : forall e st, R st (add_log (ErrorBroadcasting e) st).
Hypothesis R_connect : forall websocket, keeps R (connect websocket).
Hypothesis R_disconnect : forall websocket, keeps R (disconnect websocket).

Lemma keeps_await_send_text websocket message : keeps R (await_send_text websocket message).
Proof.
  intros st. unfold await_send_text.
  destruct (send_text websocket message (world st)). apply R_world.
Qed.

Lemma keeps_await_receive_text websocket : keeps R (await_receive_text websocket).
Proof.
  intros st. unfold await_receive_text.
  destruct (receive_text websocket (world st)). apply R_world.
Qed.

Lemma keeps_send_all message l : forall disc, keeps R (send_all message l disc).
Proof.
  induction l as [|c l IH]; intros disc; simpl.
  - apply keeps_ret.
  - apply keeps_bind; [apply keeps_try, keeps_await_send_text|].
    intros [u|e]; [apply IH|].
    destruct (is_Exception e); [|apply keeps_raise].
    apply keeps_bind; [apply keeps_modify, R_error|intros _; apply IH].
Qed.

Lemma keeps_disconnect_all disc : keeps R (disconnect_all disc).
Proof.
  induction disc as [|c disc IH]; simpl.
  - apply keeps_ret.
  - apply keeps_bind; [apply R_disconnect|intros _; exact IH].
Qed.

Lemma keeps_broadcast message : keeps R (broadcast message).
Proof.
  unfold broadcast. apply keeps_bind; [apply keeps_gets|intros l].
  apply keeps_bind; [apply keeps_send_all|intros disc].
  apply keeps_disconnect_all.
Qed.

Lemma keeps_broadcast_next message i disc : keeps R (broadcast_next message i disc).
Proof.
  unfold broadcast_next. apply keeps_bind; [apply keeps_gets|intros l].
  destruct (nth_error l i); [apply keeps_ret|].
  apply keeps_bind; [apply keeps_disconnect_all|intros _; apply keeps_ret].
Qed.

Lemma keeps_broadcast_resume k : keeps R (broadcast_resume k).
Proof.
  unfold broadcast_resume.
  apply keeps_bind; [apply keeps_try, keeps_await_send_text|].
  intros [u|e]; [apply keeps_broadcast_next|].
  destruct (is_Exception e); [|apply keeps_raise].
  apply keeps_bind; [apply keeps_modify, R_error|intros _; apply keeps_broadcast_next].
Qed.

Hypothesis R_event : forall st, R st (set_event st).
Hypothesis R_requested : forall t st, R st (set_requested_at t st).
Hypothesis R_line : forall e st, plain e = true -> R st (add_log e st).

Lemma keeps_line e : plain e = true -> keeps R (logger e).
Proof. intros H. apply keeps_modify. intros st. now apply R_line. Qed.

Lemma keeps_poll deadline : keeps R (poll deadline).
Proof.
  unfold poll. apply keeps_bind; [apply keeps_gets|intros now].
  destruct (now <? deadline).
  - apply keeps_bind; [apply keeps_gets|intros empty]. destruct empty.
    + apply keeps_bind; [now apply keeps_line|intros _].
      apply keeps_bind; [apply keeps_modify, R_event|intros _; apply keeps_ret].
    + apply keeps_bind; [apply keeps_gets|intros n].
      apply keeps_bind; [now apply keeps_line|intros _; apply keeps_ret].
  - apply keeps_bind; [apply keeps_modify, R_event|intros _; apply keeps_ret].
Qed.

Lemma keeps_shutdown_after p : keeps R (shutdown_after p).
Proof.
  destruct p as [k|]; simpl; [apply keeps_ret|].
  apply keeps_bind; [apply keeps_gets|intros [t|]];
    [apply keeps_poll|apply keeps_raise].
Qed.

Lemma keeps_graceful_shutdown t : keeps R (graceful_shutdown t).
Proof.
  destruct t as [|k|deadline wake|r]; simpl.
  - apply keeps_bind; [apply keeps_gets|intros now].
    apply keeps_bind; [apply keeps_modify, R_requested|intros _].
    apply keeps_bind; [now apply keeps_line|intros _].
    apply keeps_bind; [apply keeps_broadcast_next|apply keeps_shutdown_after].
  - apply keeps_bind; [apply keeps_broadcast_resume|apply keeps_shutdown_after].
  - apply keeps_poll.
  - apply keeps_ret.
Qed.

Lemma keeps_websocket_endpoint t : keeps R (websocket_endpoint t).
Proof.
  destruct t as [w|w|r]; simpl.
  - apply keeps_bind; [apply R_connect|intros _; apply keeps_ret].
  - apply keeps_bind; [apply keeps_try, keeps_await_receive_text|].
    intros [text|e]; [apply keeps_ret|].
    destruct e; try apply keeps_raise.
    apply keeps_bind; [apply R_disconnect|intros _; apply keeps_ret].
  - apply keeps_ret.
Qed.

Lemma keeps_notify_after p : keeps R (notify_after p).
Proof.
  destruct p as [k|]; simpl; [apply keeps_ret|].
  unfold notify_loop. apply keeps_bind; [apply keeps_gets|intros stop].
  destruct stop; [apply keeps_ret|].
  apply keeps_bind; [apply keeps_gets|intros now; apply keeps_ret].
Qed.

Hypothesis R_announce : forall n st, R st (add_log (BroadcastingNotification n) st).

Lemma keeps_notify_clients_periodically t : keeps R (notify_clients_periodically t).
Proof.
  destruct t as [|wake|k|r]; simpl.
  - apply (keeps_notify_after Returned).
  - apply keeps_bind; [apply keeps_gets|intros n].
    destruct (0 <? n); [|apply (keeps_notify_after Returned)].
    apply keeps_bind; [apply keeps_modify, R_announce|intros _].
    apply keeps_bind; [apply keeps_broadcast_next|apply keeps_notify_after].
  - apply keeps_bind; [apply keeps_broadcast_resume|apply keeps_notify_after].
  - apply keeps_ret.
Qed.

End Keeps.

(** ** The count against the log *)

Lemma adds_app l1 l2 : adds (l1 ++ l2) = adds l1 + adds l2.
Proof. induction l1 as [|[] l1 IH]; simpl; lia. Qed.

Lemma effective_removes_app l1 l2 :
  effective_removes (l1 ++ l2) = effective_removes l1 + effective_removes l2.
Proof. induction l1 as [|[] l1 IH]; simpl; lia. Qed.

Lemma balanced_connect websocket (st : AppState World) :
  balanced st -> balanced (snd (connect websocket st)).
Proof.
  unfold balanced, connect, await_accept, count. run_monad.
  destruct (accept websocket (world st)) as [[u|e] w]; simpl; trivial.
  rewrite adds_app, effective_removes_app, length_app. simpl. lia.
Qed.

Lemma balanced_disconnect websocket (st : AppState World) :
  balanced st -> balanced (snd (disconnect websocket st)).
Proof.
  intros Hb.
  destruct (in_dec Nat.eq_dec websocket (active_connections st)) as [Hin|Hn].
  - destruct (disconnect_present websocket st Hin) as (l' & _ & HP & ->).
    unfold balanced, count in *. simpl.
    rewrite adds_app, effective_removes_app. simpl.
    rewrite (Permutation_length HP) in Hb. simpl in Hb. lia.
  - now rewrite disconnect_absent.
Qed.

Lemma balanced_line e (st : AppState World) :
  adds [e] = 0 -> effective_removes [e] = 0 -> stays_balanced st (add_log e st).
Proof.
  intros Ha Hr. unfold stays_balanced, balanced, count. simpl.
  rewrite adds_app, effective_removes_app. lia.
Qed.

Lemma balanced_plain e (st : AppState World) :
  plain e = true -> stays_balanced st (add_log e st).
Proof. intros He. apply balanced_line; now destruct e. Qed.

Lemma balanced_refl (st : AppState World) : stays_balanced st st.
Proof. exact (fun H => H). Qed.

Lemma balanced_trans (a b c : AppState World) :
  stays_balanced a b -> stays_balanced b c -> stays_balanced a c.
Proof. unfold stays_balanced. tauto. Qed.

Lemma balanced_world w (st : AppState World) : stays_balanced st (set_world w st).
Proof. exact (fun H => H). Qed.

Lemma balanced_event (st : AppState World) : stays_balanced st (set_event st).
Proof. exact (fun H => H). Qed.

Lemma balanced_requested t (st : AppState World) :
  stays_balanced st (set_requested_at t st).
Proof. exact (fun H => H). Qed.

Lemma balanced_error e (st : AppState World) :
  stays_balanced st (add_log (ErrorBroadcasting e) st).
Proof. now apply balanced_line. Qed.

Lemma balanced_announce n (st : AppState World) :
  stays_balanced st (add_log (BroadcastingNotification n) st).
Proof. now apply balanced_line. Qed.

Lemma balanced_keeps_connect websocket : keeps (World:=World) stays_balanced (connect websocket).
Proof. intros st H. now apply balanced_connect. Qed.

Lemma balanced_keeps_disconnect websocket : keeps (World:=World) stays_balanced (disconnect websocket).
Proof. intros st H. now apply balanced_disconnect. Qed.

Create HintDb balanced discriminated.
#[local] Hint Resolve balanced_refl balanced_trans balanced_world balanced_event
  balanced_requested balanced_error balanced_announce balanced_plain
  balanced_keeps_connect balanced_keeps_disconnect : balanced.



(** ** The registry, one call at a time *)

(** C7: [disconnect] of a connection that is not in [active_connections]
    raises nothing and leaves the whole state, log included, as it was. *)
Theorem disconnect_absent_is_noop (websocket : WebSocket) (st : AppState World) :
  ~ In websocket (active_connections st) ->
  disconnect websocket st = (Ok tt, st).
Proof.
  intros Habsent. unfold disconnect. run_monad.
  destruct (in_dec Nat.eq_dec websocket (active_connections st)) as [Hin|_].
  - contradiction.
  - reflexivity.
Qed.

Lemma connect_accepted websocket (st : AppState World) w' :
  accept websocket (world st) = (Ok tt, w') ->
  connect websocket st =
    (Ok tt,
     mkApp (active_connections st ++ [websocket]) (shutdown_event st)
           (shutdown_requested_at st) (utcnow st)
           (log st ++ [ClientConnected (S (count st))]) w').
Proof.
  intros Ha. unfold connect, await_accept, count. run_monad. rewrite Ha. simpl.
  rewrite length_app. simpl. now rewrite Nat.add_1_r.
Qed.

Lemma connect_refused websocket (st : AppState World) e w' :
  accept websocket (world st) = (Raise e, w') ->
  connect websocket st = (Raise e, set_world w' st).
Proof.
  intros Ha. unfold connect, await_accept. run_monad. now rewrite Ha.
Qed.

Lemma list_remove_absent x l : ~ In x l -> list_remove x l = None.
Proof.
  induction l as [|y t IH]; simpl; [reflexivity|].
  intros H. destruct (Nat.eqb_spec x y) as [->|Hne]; [tauto|].
  rewrite IH; tauto.
Qed.

Lemma send_all_same_registry message l disc (st : AppState World) :
  same_registry st (snd (send_all message l disc st)).
Proof.
  revert disc st. apply (keeps_send_all same_registry).
  - now repeat split.
  - intros a b c (H1 & H2 & H3) (H4 & H5 & H6). repeat split; congruence.
  - now repeat split.
  - intros e st. repeat split; simpl;
      rewrite ?adds_app, ?effective_removes_app; simpl; lia.
Qed.

Lemma send_all_hard message l : forall disc (st : AppState World),
  forallb soft (send_outcomes message l (world st)) = false ->
  exists e, fst (send_all message l disc st) = Raise e.
Proof.
  induction l as [|c l IH]; intros disc st; simpl; [discriminate|].
  rewrite bind_try. unfold await_send_text.
  destruct (send_text c message (world st)) as [[u|e] w']; simpl.
  - intros H. exact (IH disc (set_world w' st) H).
  - unfold soft at 1. simpl. destruct (is_Exception e); simpl.
    + intros H. rewrite bind_logger.
      exact (IH (disc ++ [c]) (add_log (ErrorBroadcasting e) (set_world w' st)) H).
    + intros _. exists e. reflexivity.
Qed.

Lemma disconnect_all_tally disc : forall st : AppState World,
  exists st',
    disconnect_all disc st = (Ok tt, st') /\
    count st' + effective_removals disc (active_connections st) = count st /\
    adds (log st') = adds (log st) /\
    effective_removes (log st') =
      effective_removes (log st) + effective_removals disc (active_connections st).
Proof.
  induction disc as [|c disc IH]; intros st; cbn [disconnect_all effective_removals].
  - exists st. repeat split; lia.
  - destruct (in_dec Nat.eq_dec c (active_connections st)) as [Hin|Hn].
    + destruct (disconnect_present c st Hin) as (l' & Hrm & HP & Hd).
      rewrite (bind_value _ _ _ _ _ Hd), Hrm.
      destruct (IH (add_log (ClientDisconnected (List.length l')) (set_connections l' st)))
        as (st' & -> & Hc & Ha & Hr).
      exists st'. split; [reflexivity|].
      unfold count in *. simpl in Hc, Ha, Hr.
      rewrite adds_app in Ha. rewrite effective_removes_app in Hr. simpl in Ha, Hr.
      rewrite (Permutation_length HP). simpl. repeat split; lia.
    + rewrite (bind_value _ _ _ _ _ (disconnect_absent c st Hn)).
      rewrite (list_remove_absent _ _ Hn). apply IH.
Qed.

Lemma run_call_tally c (st : AppState World) :
  count (snd (run_call c st)) + removed c st = count st + added c st /\
  adds (log (snd (run_call c st))) = adds (log st) + added c st /\
  effective_removes (log (snd (run_call c st))) =
    effective_removes (log st) + removed c st.
Proof.
  destruct c as [w|w|text]; cbn [run_call added removed].
  - destruct (accept w (world st)) as [[[]|e] w'] eqn:Ha; cbn [fst].
    + rewrite (connect_accepted _ _ _ Ha). unfold count. simpl.
      rewrite length_app, adds_app, effective_removes_app. simpl. lia.
    + rewrite (connect_refused _ _ _ _ Ha). unfold count. simpl. lia.
  - destruct (in_dec Nat.eq_dec w (active_connections st)) as [Hin|Hn].
    + destruct (disconnect_present w st Hin) as (l' & _ & HP & ->).
      unfold count. simpl. rewrite adds_app, effective_removes_app. simpl.
      rewrite (Permutation_length HP). simpl. lia.
    + rewrite (disconnect_absent w st Hn). simpl. lia.
  - unfold broadcast.
    rewrite bind_value with (a := active_connections st) (st' := st) by reflexivity.
    pose proof (send_all_same_registry text (active_connections st) [] st)
      as (Hl & Ha & Hr).
    destruct (forallb soft (send_outcomes text (active_connections st) (world st)))
      eqn:Hsoft.
    + assert (Hall : Forall send_failure_only
                       (send_outcomes text (active_connections st) (world st))).
      { apply Forall_forall. intros o Ho.
        rewrite forallb_forall in Hsoft. exact (Hsoft o Ho). }
      pose proof (send_all_spec text _ [] st Hall) as Hspec.
      rewrite Hspec in Hl, Ha, Hr. rewrite (bind_value _ _ _ _ _ Hspec).
      cbn [fst snd] in *. rewrite app_nil_l.
      match goal with |- context [disconnect_all _ ?s] =>
        destruct (disconnect_all_tally
                    (failed_members (send_outcomes text (active_connections st) (world st)))
                    s) as (st' & Hd & Hc & Ha' & Hr') end.
      rewrite Hd. cbn [snd]. unfold count in *. cbn [active_connections log] in *.
      repeat split; lia.
    + destruct (send_all_hard text _ [] st Hsoft) as (e & He).
      unfold bind.
      destruct (send_all text (active_connections st) [] st) as [[d|e'] st'];
        [discriminate|].
      cbn [snd] in *. unfold count. rewrite Hl. repeat split; lia.
Qed.

Lemma run_calls_tally calls : forall st : AppState World,
  count (run_calls calls st) + total_removed calls st = count st + total_added calls st /\
  adds (log (run_calls calls st)) = adds (log st) + total_added calls st /\
  effective_removes (log (run_calls calls st)) =
    effective_removes (log st) + total_removed calls st.
Proof.
  induction calls as [|c calls IH]; intros st;
    cbn [run_calls total_added total_removed].
  - repeat split; lia.
  - destruct (run_call_tally c st) as (H1 & H2 & H3).
    destruct (IH (snd (run_call c st))) as (H4 & H5 & H6).
    repeat split; lia.
Qed.

(** C6: after any sequence of [connect], [disconnect] and [broadcast] calls
    on a fresh manager, [count()] is the number of adds minus the number of
    effective removes.  An add is a [connect] whose [accept] returned; an
    effective remove is a [disconnect] that found its member, called by a
    caller or by the clean-up of [broadcast]; a remove of an absent member
    counts for nothing.  The two numbers are also the numbers of
    ["Client connected"] and ["Client disconnected"] lines in the log. *)
Theorem count_is_adds_minus_effective_removes
  (calls : list call) (now : datetime) (w : World) :
  let fresh := mkApp [] false None now [] w in
  let st := run_calls calls fresh in
  count st = total_added calls fresh - total_removed calls fresh /\
  total_removed calls fresh <= total_added calls fresh /\
  adds (log st) = total_added calls fresh /\
  effective_removes (log st) = total_removed calls fresh.
Proof.
  intros fresh st.
  destruct (run_calls_tally calls fresh) as (H1 & H2 & H3).
  fold st in H1, H2, H3.
  assert (H0 : count fresh = 0) by reflexivity.
  unfold fresh in H2 at 1. unfold fresh in H3 at 1. simpl in H2, H3.
  repeat split; lia.
Qed.

(** ** broadcast *)

(** C9: when the send to every member succeeds, [broadcast] returns normally
    and leaves [active_connections] as it was, the same members in the same
    order, and writes nothing to the log. *)
Theorem broadcast_all_sent_keeps_registry (message : string) (st : AppState World) :
  Forall (fun o => snd o = Ok tt)
         (send_outcomes message (active_connections st) (world st)) ->
  exists st',
    broadcast message st = (Ok tt, st') /\
    active_connections st' = active_connections st /\
    log st' = log st.
Proof.
  intros Hall.
  set (outcomes := send_outcomes message (active_connections st) (world st)) in *.
  assert (Hf : failed_members outcomes = [] /\ send_errors outcomes = []).
  { unfold failed_members. clearbody outcomes.
    induction Hall as [|[c r] t Hr _ IH]; simpl in *; [auto|].
    subst r. exact IH. }
  assert (Hs : Forall send_failure_only outcomes).
  { eapply Forall_impl; [|exact Hall]. intros [c r] Hr. simpl in Hr. subst r.
    reflexivity. }
  destruct Hf as [Hf He].
  unfold broadcast. unfold bind at 1. unfold gets at 1. unfold bind at 1.
  rewrite (send_all_spec message (active_connections st) [] st Hs).
  fold outcomes. rewrite Hf, He. simpl. run_monad.
  eexists. split; [reflexivity|]. simpl. now rewrite app_nil_r.
Qed.

(** ** broadcast among other tasks *)




Lemma broadcast_next_at text pre suf disc (st : AppState World) :
  active_connections st = pre ++ suf ->
  broadcast_next text (List.length pre) disc st =
  match suf with
  | [] => bind (disconnect_all disc) (fun _ => ret Returned) st
  | c :: _ => (Ok (Sending (mkSending text c (S (List.length pre)) disc)), st)
  end.
Proof.
  intros Hl. unfold broadcast_next. unfold bind at 1. unfold gets at 1.
  rewrite Hl, nth_error_app2, Nat.sub_diag by lia. now destruct suf.
Qed.



Section HealthyTransport.

(** A transport on which a send fails, if it does, with an [Exception]. *)
Hypothesis send_fails_softly :
  forall c text (w : World), send_failure_only (c, fst (send_text c text w)).




End HealthyTransport.


(** ** After the shutdown event *)

Lemma periodic_broadcasts_app l1 l2 :
  periodic_broadcasts (l1 ++ l2) = periodic_broadcasts l1 + periodic_broadcasts l2.
Proof. induction l1 as [|[] l1 IH]; simpl; lia. Qed.

Lemma calm_refl (st : AppState World) : calm st st.
Proof. now split. Qed.

Lemma calm_trans (a b c : AppState World) : calm a b -> calm b c -> calm a c.
Proof. intros [H1 H2] [H3 H4]. split; [auto|congruence]. Qed.

Lemma calm_world w (st : AppState World) : calm st (set_world w st).
Proof. now split. Qed.

Lemma calm_event (st : AppState World) : calm st (set_event st).
Proof. now split. Qed.

Lemma calm_requested t (st : AppState World) : calm st (set_requested_at t st).
Proof. now split. Qed.

Lemma calm_line e (st : AppState World) : plain e = true -> calm st (add_log e st).
Proof.
  intros He. split; [trivial|]. simpl. rewrite periodic_broadcasts_app.
  destruct e; simpl; try discriminate; lia.
Qed.

Lemma calm_connect websocket : keeps (World:=World) calm (connect websocket).
Proof.
  intros st. unfold connect, await_accept. run_monad.
  destruct (accept websocket (world st)) as [[u|e] w]; simpl; split; simpl; trivial.
  rewrite periodic_broadcasts_app. simpl. lia.
Qed.

Lemma calm_disconnect websocket : keeps (World:=World) calm (disconnect websocket).
Proof.
  intros st.
  destruct (in_dec Nat.eq_dec websocket (active_connections st)) as [Hin|Hn].
  - destruct (disconnect_present websocket st Hin) as (l' & _ & _ & ->).
    split; simpl; trivial. rewrite periodic_broadcasts_app. simpl. lia.
  - rewrite disconnect_absent by assumption. apply calm_refl.
Qed.

Create HintDb calm discriminated.
#[local] Hint Resolve calm_refl calm_trans calm_world calm_event calm_requested
  calm_line calm_connect calm_disconnect : calm.

Lemma calm_error e (st : AppState World) : calm st (add_log (ErrorBroadcasting e) st).
Proof. now apply calm_line. Qed.
#[local] Hint Resolve calm_error : calm.

Lemma calm_broadcast_next text i disc : keeps (World:=World) calm (broadcast_next text i disc).
Proof. apply keeps_broadcast_next; eauto with calm. Qed.

Lemma calm_broadcast_resume k : keeps (World:=World) calm (broadcast_resume k).
Proof. apply keeps_broadcast_resume; eauto with calm. Qed.

Lemma calm_step_shutdown t (st : AppState World) : calm st (snd (step_shutdown t st)).
Proof.
  unfold step_shutdown.
  assert (H : keeps (World:=World) calm (graceful_shutdown t))
    by (apply keeps_graceful_shutdown; eauto with calm).
  specialize (H st). now destruct (graceful_shutdown t st) as [[t'|e] st'].
Qed.

Lemma calm_step_endpoint t (st : AppState World) : calm st (snd (step_endpoint t st)).
Proof.
  unfold step_endpoint.
  assert (H : keeps (World:=World) calm (websocket_endpoint t))
    by (apply keeps_websocket_endpoint; eauto with calm).
  specialize (H st). now destruct (websocket_endpoint t st) as [[t'|e] st'].
Qed.

Lemma notify_after_stops p (st : AppState World) :
  shutdown_event st = true ->
  exists t', notify_after p st = (Ok t', st) /\ pending t' = 0.
Proof.
  intros He. destruct p as [k|]; simpl.
  - eexists. split; reflexivity.
  - unfold notify_loop. run_monad. rewrite He. eexists. split; reflexivity.
Qed.

Lemma step_notify_bound t (st : AppState World) :
  shutdown_event st = true ->
  shutdown_event (snd (step_notify t st)) = true /\
  periodic_broadcasts (log (snd (step_notify t st))) + pending (fst (step_notify t st))
    <= periodic_broadcasts (log st) + pending t.
Proof.
  intros He. unfold step_notify.
  destruct t as [|wake|k|r]; cbn [notify_clients_periodically].
  - destruct (notify_after_stops Returned st He) as (t' & H & Hp).
    simpl in H. rewrite H. simpl. rewrite Hp. split; [assumption|lia].
  - rewrite bind_value with (a := count st) (st' := st) by reflexivity.
    destruct (0 <? count st).
    + rewrite bind_logger.
      set (st0 := add_log (BroadcastingNotification (count st)) st).
      assert (H0 : shutdown_event st0 = true) by exact He.
      assert (P0 : periodic_broadcasts (log st0) = periodic_broadcasts (log st) + 1).
      { unfold st0. simpl. now rewrite periodic_broadcasts_app. }
      pose proof (calm_broadcast_next test_notification 0 [] st0) as [Hc1 Hc2].
      unfold broadcast_start, bind.
      destruct (broadcast_next test_notification 0 [] st0) as [[p|e] st1]; simpl in *.
      * destruct (notify_after_stops p st1 (Hc1 H0)) as (t' & -> & Hp).
        simpl. rewrite Hp. split; [auto|lia].
      * split; [auto|lia].
    + destruct (notify_after_stops Returned st He) as (t' & H & Hp).
      simpl in H. rewrite H. simpl. rewrite Hp. split; [assumption|lia].
  - pose proof (calm_broadcast_resume k st) as [Hc1 Hc2].
    unfold bind.
    destruct (broadcast_resume k st) as [[p|e] st1]; simpl in *.
    + destruct (notify_after_stops p st1 (Hc1 He)) as (t' & -> & Hp).
      simpl. rewrite Hp. split; [auto|lia].
    + split; [auto|lia].
  - simpl. split; [assumption|lia].
Qed.

Lemma cancel_bound (s : Server World) :
  app (cancel s) = app s /\ notify_task (cancel s) = notify_task s /\
  lifespan (cancel s) = lifespan s /\ outstanding (cancel s) <= outstanding s.
Proof.
  unfold cancel, outstanding.
  destruct (notify_task s) eqn:Hn; simpl; rewrite ?Hn; repeat split; trivial; lia.
Qed.

Lemma await_notify_task_bound (s : Server World) :
  calm (app s) (app (await_notify_task s)) /\
  notify_task (await_notify_task s) = notify_task s /\
  cancel_requested (await_notify_task s) = cancel_requested s.
Proof.
  unfold await_notify_task.
  destruct (notify_task s) as [| | |[u|[]]] eqn:Hn; simpl; rewrite ?Hn;
    repeat split; trivial.
  simpl. now rewrite periodic_broadcasts_app.
Qed.

Lemma lifespan_after_bound t (s : Server World) :
  calm (app s) (app (lifespan_after t s)) /\
  outstanding (lifespan_after t s) <= outstanding s.
Proof.
  unfold lifespan_after.
  destruct t as [| | |[u|e]]; lazy beta iota;
    try (split; [apply calm_refl|unfold outstanding; simpl; lia]).
  destruct (cancel_bound s) as (Ha & Hn & _ & Ho).
  destruct (await_notify_task_bound (cancel s)) as (Hc & Hn' & Hf).
  split.
  - now rewrite <- Ha.
  - unfold outstanding in *. rewrite Hn', Hf. exact Ho.
Qed.

Lemma step_bound e (s s' : Server World) :
  shutdown_event (app s) = true ->
  step e s = Some s' ->
  shutdown_event (app s') = true /\ announced s' <= announced s.
Proof.
  intros He. unfold announced.
  destruct e as [seconds| |i| |signum|i| |]; cbn [step].
  - intros [= <-]. simpl. split; [assumption|]. unfold outstanding. simpl. lia.
  - intros [= <-]. simpl. split; [assumption|]. unfold outstanding. simpl. lia.
  - destruct (nth_error (endpoints s) i) as [t|]; [|discriminate].
    destruct (endpoint_ready t); [|discriminate].
    pose proof (calm_step_endpoint t (app s)) as [Hc1 Hc2].
    destruct (step_endpoint t (app s)) as [t' st']. intros [= <-].
    simpl in *. split; [auto|]. unfold outstanding. simpl. lia.
  - destruct (notify_ready _ _ _); [|discriminate].
    unfold outstanding. destruct (cancel_requested s) eqn:Hcr.
    + intros [= <-]. simpl. split; [assumption|lia].
    + pose proof (step_notify_bound (notify_task s) (app s) He) as [Hn1 Hn2].
      destruct (step_notify (notify_task s) (app s)) as [t' st']. intros [= <-].
      simpl in *. split; assumption.
  - unfold handle_signal. rewrite He. intros [= <-]. split; [assumption|lia].
  - destruct (nth_error (signal_tasks s) i) as [t|]; [|discriminate].
    destruct (shutdown_ready _ t); [|discriminate].
    pose proof (calm_step_shutdown t (app s)) as [Hc1 Hc2].
    destruct (step_shutdown t (app s)) as [t' st']. intros [= <-].
    simpl in *. split; [auto|]. unfold outstanding. simpl. lia.
  - destruct (lifespan s); try discriminate.
    pose proof (calm_step_shutdown ShutdownCreated (app s)) as [Hc1 Hc2].
    destruct (step_shutdown ShutdownCreated (app s)) as [t' st']. intros [= <-].
    destruct (lifespan_after_bound t' (with_app st' s)) as ([Hl1 Hl2] & Hl3).
    simpl in *. split; [auto|].
    rewrite Hl2, Hc2. unfold outstanding in *. simpl in Hl3. lia.
  - destruct (lifespan s) as [|t| |r]; try discriminate.
    + destruct (shutdown_ready _ t); [|discriminate].
      pose proof (calm_step_shutdown t (app s)) as [Hc1 Hc2].
      destruct (step_shutdown t (app s)) as [t' st']. intros [= <-].
      destruct (lifespan_after_bound t' (with_app st' s)) as ([Hl1 Hl2] & Hl3).
      simpl in *. split; [auto|].
      rewrite Hl2, Hc2. unfold outstanding in *. simpl in Hl3. lia.
    + destruct (notify_task s) eqn:Hn; try discriminate. intros [= <-].
      destruct (await_notify_task_bound s) as ([Ha1 Ha2] & Hn' & Hf).
      split; [auto|]. unfold outstanding. rewrite Ha2, Hn', Hf. lia.
Qed.

Lemma run_bound events : forall s s' : Server World,
  shutdown_event (app s) = true ->
  run events s = Some s' ->
  shutdown_event (app s') = true /\ announced s' <= announced s.
Proof.
  induction events as [|e events IH]; intros s s' He; simpl.
  - intros [= <-]. split; [assumption|lia].
  - destruct (step e s) as [s1|] eqn:Hs; [|discriminate]. intros Hr.
    destruct (step_bound e s s1 He Hs) as [He1 Hb1].
    destruct (IH s1 s' He1 Hr) as [He2 Hb2]. split; [assumption|lia].
Qed.

Lemma await_notify_task_awaited (s : Server World) : awaited (await_notify_task s).
Proof.
  unfold awaited, await_notify_task.
  destruct (notify_task s) as [| | |[u|[]]] eqn:Hn; simpl; rewrite ?Hn;
    try discriminate; eauto.
Qed.

Lemma lifespan_after_awaited t (s : Server World) : awaited (lifespan_after t s).
Proof.
  unfold lifespan_after.
  destruct t as [| | |[u|e]]; try (unfold awaited; simpl; discriminate).
  apply await_notify_task_awaited.
Qed.

Lemma step_awaited e (s s' : Server World) :
  awaited s -> step e s = Some s' -> awaited s'.
Proof.
  intros Hs.
  destruct e as [seconds| |i| |signum|i| |]; cbn [step].
  - intros [= <-]. exact Hs.
  - intros [= <-]. exact Hs.
  - destruct (nth_error (endpoints s) i) as [t|]; [|discriminate].
    destruct (endpoint_ready t); [|discriminate].
    destruct (step_endpoint t (app s)) as [t' st']. intros [= <-]. exact Hs.
  - destruct (notify_ready _ _ (notify_task s)) eqn:Hr; [|discriminate].
    assert (Hnd : forall r, notify_task s <> NotifyDone r).
    { intros r Hn. rewrite Hn in Hr. discriminate. }
    assert (Hl : lifespan s <> LifespanDone (Ok tt)).
    { intros Hl. destruct (Hs Hl) as (r & Hn). exact (Hnd r Hn). }
    destruct (cancel_requested s).
    + intros [= <-]. intros H. simpl in H. contradiction.
    + destruct (step_notify (notify_task s) (app s)) as [t' st']. intros [= <-].
      intros H. simpl in H. contradiction.
  - unfold handle_signal. destruct (shutdown_event (app s)); intros [= <-]; exact Hs.
  - destruct (nth_error (signal_tasks s) i) as [t|]; [|discriminate].
    destruct (shutdown_ready _ t); [|discriminate].
    destruct (step_shutdown t (app s)) as [t' st']. intros [= <-]. exact Hs.
  - destruct (lifespan s); try discriminate.
    destruct (step_shutdown ShutdownCreated (app s)) as [t' st']. intros [= <-].
    apply lifespan_after_awaited.
  - destruct (lifespan s) as [|t| |r]; try discriminate.
    + destruct (shutdown_ready _ t); [|discriminate].
      destruct (step_shutdown t (app s)) as [t' st']. intros [= <-].
      apply lifespan_after_awaited.
    + destruct (notify_task s); try discriminate. intros [= <-].
      apply await_notify_task_awaited.
Qed.

Lemma run_awaited events : forall s s' : Server World,
  awaited s -> run events s = Some s' -> awaited s'.
Proof.
  induction events as [|e events IH]; intros s s' Hs; simpl.
  - now intros [= <-].
  - destruct (step e s) as [s1|] eqn:H1; [|discriminate].
    apply IH. exact (step_awaited e s s1 Hs H1).
Qed.

Lemma cancel_called_off (s : Server World) :
  cancel_requested (cancel s) = true \/ exists r, notify_task (cancel s) = NotifyDone r.
Proof.
  unfold cancel. destruct (notify_task s) as [|wake|k|r] eqn:Hn; simpl; auto.
  right. exists r. exact Hn.
Qed.

Lemma await_notify_task_called_off (s : Server World) :
  cancel_requested s = true \/ (exists r, notify_task s = NotifyDone r) ->
  called_off (await_notify_task s).
Proof.
  intros H _. unfold await_notify_task.
  destruct (notify_task s) as [|wake|k|[u|[]]] eqn:Hn; simpl; rewrite ?Hn;
    destruct H as [H|(r & H)]; auto; right; eauto.
Qed.

Lemma lifespan_after_called_off t (s : Server World) : called_off (lifespan_after t s).
Proof.
  unfold lifespan_after.
  destruct t as [| | |[u|e]];
    try (unfold called_off; simpl; intros [H|H]; discriminate).
  apply await_notify_task_called_off, cancel_called_off.
Qed.

Lemma step_called_off e (s s' : Server World) :
  called_off s -> step e s = Some s' -> called_off s'.
Proof.
  intros Hs.
  destruct e as [seconds| |i| |signum|i| |]; cbn [step].
  - intros [= <-]. exact Hs.
  - intros [= <-]. exact Hs.
  - destruct (nth_error (endpoints s) i) as [t|]; [|discriminate].
    destruct (endpoint_ready t); [|discriminate].
    destruct (step_endpoint t (app s)) as [t' st']. intros [= <-]. exact Hs.
  - destruct (notify_ready _ _ (notify_task s)) eqn:Hr; [|discriminate].
    assert (Hnd : forall r, notify_task s <> NotifyDone r).
    { intros r Hn. rewrite Hn in Hr. discriminate. }
    case_eq (cancel_requested s); intros Hc.
    + intros [= <-]. intros _. right. simpl. eauto.
    + destruct (step_notify (notify_task s) (app s)) as [t' st']. intros [= <-].
      intros H. simpl in H. destruct (Hs H) as [Hc'|(r & Hn)].
      * congruence.
      * exfalso. exact (Hnd r Hn).
  - unfold handle_signal. destruct (shutdown_event (app s)); intros [= <-]; exact Hs.
  - destruct (nth_error (signal_tasks s) i) as [t|]; [|discriminate].
    destruct (shutdown_ready _ t); [|discriminate].
    destruct (step_shutdown t (app s)) as [t' st']. intros [= <-]. exact Hs.
  - destruct (lifespan s); try discriminate.
    destruct (step_shutdown ShutdownCreated (app s)) as [t' st']. intros [= <-].
    apply lifespan_after_called_off.
  - destruct (lifespan s) as [|t| |r] eqn:Hl; try discriminate.
    + destruct (shutdown_ready _ t); [|discriminate].
      destruct (step_shutdown t (app s)) as [t' st']. intros [= <-].
      apply lifespan_after_called_off.
    + destruct (notify_task s) as [| | |r] eqn:Hn; try discriminate. intros [= <-].
      apply await_notify_task_called_off. right. eauto.
Qed.

Lemma run_called_off events : forall s s' : Server World,
  called_off s -> run events s = Some s' -> called_off s'.
Proof.
  induction events as [|e events IH]; intros s s' Hs; simpl.
  - now intros [= <-].
  - destruct (step e s) as [s1|] eqn:H1; [|discriminate].
    apply IH. exact (step_called_off e s s1 Hs H1).
Qed.

(** The count agrees with the log at every moment of every execution of the
    server, whatever the interleaving of its tasks. *)
Lemma balanced_step e (s s' : Server World) :
  balanced (app s) -> step e s = Some s' -> balanced (app s').
Proof.
  intros Hb.
  assert (Hsd : forall t st, stays_balanced st (snd (step_shutdown t st))).
  { intros t st. unfold step_shutdown.
    assert (H : keeps (World:=World) stays_balanced (graceful_shutdown t))
      by (apply keeps_graceful_shutdown; eauto with balanced).
    specialize (H st). now destruct (graceful_shutdown t st) as [[t'|x] st']. }
  assert (Han : forall s0 : Server World,
             balanced (app s0) -> balanced (app (await_notify_task s0))).
  { intros s0 H0. unfold await_notify_task.
    destruct (notify_task s0) as [| | |[u'|[]]]; simpl; trivial.
    now apply (balanced_line NotificationTaskCancelled). }
  assert (Hla : forall t (s0 : Server World),
             balanced (app s0) -> balanced (app (lifespan_after t s0))).
  { intros t s0 H0. unfold lifespan_after.
    destruct t as [| | |[u|x]]; lazy beta iota; trivial.
    apply Han. now rewrite (proj1 (cancel_bound s0)). }
  destruct e as [seconds| |i| |signum|i| |]; cbn [step].
  - intros [= <-]. exact Hb.
  - intros [= <-]. exact Hb.
  - destruct (nth_error (endpoints s) i) as [t|]; [|discriminate].
    destruct (endpoint_ready t); [|discriminate].
    assert (H : keeps (World:=World) stays_balanced (websocket_endpoint t))
      by (apply keeps_websocket_endpoint; eauto with balanced).
    specialize (H (app s) Hb). unfold step_endpoint.
    destruct (websocket_endpoint t (app s)) as [[t'|x] st']; now intros [= <-].
  - destruct (notify_ready _ _ _); [|discriminate].
    destruct (cancel_requested s); [now intros [= <-]|].
    assert (H : keeps (World:=World) stays_balanced (notify_clients_periodically (notify_task s)))
      by (apply keeps_notify_clients_periodically; eauto with balanced).
    specialize (H (app s) Hb). unfold step_notify.
    destruct (notify_clients_periodically (notify_task s) (app s)) as [[t'|x] st'];
      now intros [= <-].
  - unfold handle_signal. destruct (shutdown_event (app s)); intros [= <-]; trivial.
    now apply (balanced_line (SignalReceived signum)).
  - destruct (nth_error (signal_tasks s) i) as [t|]; [|discriminate].
    destruct (shutdown_ready _ t); [|discriminate].
    specialize (Hsd t (app s) Hb).
    destruct (step_shutdown t (app s)) as [t' st']. now intros [= <-].
  - destruct (lifespan s); try discriminate.
    specialize (Hsd ShutdownCreated (app s) Hb).
    destruct (step_shutdown ShutdownCreated (app s)) as [t' st']. intros [= <-].
    now apply Hla.
  - destruct (lifespan s) as [|t| |r]; try discriminate.
    + destruct (shutdown_ready _ t); [|discriminate].
      specialize (Hsd t (app s) Hb).
      destruct (step_shutdown t (app s)) as [t' st']. intros [= <-].
      now apply Hla.
    + destruct (notify_task s); try discriminate. intros [= <-].
      now apply Han.
Qed.

Lemma balanced_run events : forall s s' : Server World,
  balanced (app s) -> run events s = Some s' -> balanced (app s').
Proof.
  induction events as [|e events IH]; intros s s' Hb; simpl.
  - now intros [= <-].
  - destruct (step e s) as [s1|] eqn:H1; [|discriminate].
    apply IH. exact (balanced_step e s s1 Hb H1).
Qed.

(** ** No websocket is listed twice *)

Lemma shrinks_refl (st : AppState World) : shrinks st st.
Proof. split; auto. Qed.

Lemma shrinks_trans (a b c : AppState World) : shrinks a b -> shrinks b c -> shrinks a c.
Proof. intros [H1 H2] [H3 H4]. split; auto. Qed.

Lemma shrinks_same (a b : AppState World) :
  active_connections b = active_connections a -> shrinks a b.
Proof. intros H. unfold shrinks. rewrite H. auto. Qed.

Lemma shrinks_disconnect w : keeps (World:=World) shrinks (disconnect w).
Proof.
  intros st.
  destruct (in_dec Nat.eq_dec w (active_connections st)) as [Hin|Hn].
  - destruct (disconnect_present w st Hin) as (l' & _ & HP & ->).
    split; simpl.
    + intros x Hx. eapply Permutation_in; [symmetry; exact HP|]. now right.
    + intros Hnd. apply (Permutation_NoDup HP) in Hnd. now inversion Hnd.
  - rewrite disconnect_absent by assumption. apply shrinks_refl.
Qed.

Create HintDb shrinks discriminated.
#[local] Hint Resolve shrinks_refl shrinks_trans shrinks_disconnect : shrinks.
#[local] Hint Extern 1 (shrinks _ _) => (apply shrinks_same; reflexivity) : shrinks.

Lemma shrinks_step_shutdown t (st : AppState World) :
  shrinks st (snd (step_shutdown t st)).
Proof.
  assert (H : keeps (World:=World) shrinks (graceful_shutdown t))
    by (apply keeps_graceful_shutdown; eauto with shrinks).
  unfold step_shutdown. specialize (H st).
  now destruct (graceful_shutdown t st) as [[t'|e] st'].
Qed.

Lemma shrinks_step_notify t (st : AppState World) :
  shrinks st (snd (step_notify t st)).
Proof.
  assert (H : keeps (World:=World) shrinks (notify_clients_periodically t))
    by (apply keeps_notify_clients_periodically; eauto with shrinks).
  unfold step_notify. specialize (H st).
  now destruct (notify_clients_periodically t st) as [[t'|e] st'].
Qed.

Lemma nth_error_set_nth {A} (l : list A) : forall i j (x : A),
  nth_error (set_nth i x l) j =
  if Nat.eqb j i then (if j <? List.length l then Some x else None)
  else nth_error l j.
Proof.
  induction l as [|a l IH]; intros [|i] [|j] x; simpl; trivial.
  all: try (now destruct (Nat.eqb j i)).
  all: rewrite IH; destruct (Nat.eqb j i); trivial.
Qed.

Lemma length_set_nth {A} (l : list A) : forall i (x : A),
  List.length (set_nth i x l) = List.length l.
Proof. induction l as [|a l IH]; intros [|i] x; simpl; auto. Qed.

Lemma distinct_shrinks (s : Server World) (st' : AppState World) :
  distinct s -> shrinks (app s) st' -> distinct (with_app st' s).
Proof.
  intros (H1 & H2 & H3 & H4) [Hs1 Hs2]. unfold distinct. simpl.
  split; [auto|]. split; [auto|]. split; [|exact H4].
  intros i w Hi. destruct (H3 i w Hi) as [-> Hn]. split; auto.
Qed.

Lemma distinct_lifespan_after t (s : Server World) :
  distinct s -> distinct (lifespan_after t s).
Proof.
  assert (Hw : forall s0 : Server World,
             distinct s0 -> distinct (await_notify_task s0)).
  { intros s0 H0. unfold await_notify_task.
    destruct (notify_task s0) as [| | |[u|[]]]; exact H0. }
  intros H. unfold lifespan_after.
  destruct t as [| | |[u|e]]; lazy beta iota; trivial.
  apply Hw. unfold cancel. now destruct (notify_task s).
Qed.

Lemma distinct_step e (s s' : Server World) :
  distinct s -> step e s = Some s' -> distinct s'.
Proof.
  intros Hd. pose proof Hd as (H1 & H2 & H3 & H4).
  destruct e as [seconds| |i| |signum|i| |]; cbn [step].
  - intros [= <-]. exact Hd.
  - intros [= <-]. unfold distinct. simpl. rewrite length_app. simpl.
    split; [exact H1|]. split; [intros w Hw; specialize (H2 w Hw); lia|].
    split; intros i w; rewrite nth_error_app;
      destruct (Nat.ltb_spec i (List.length (endpoints s))) as [Hlt|Hge].
    + apply H3.
    + destruct (i - List.length (endpoints s)) as [|d] eqn:Hd0; simpl;
        [|destruct d; discriminate].
      intros [= <-]. assert (i = List.length (endpoints s)) by lia. subst i.
      split; [reflexivity|]. intros Hin. specialize (H2 _ Hin). lia.
    + apply H4.
    + destruct (i - List.length (endpoints s)) as [|d]; simpl;
        [discriminate|destruct d; discriminate].
  - destruct (nth_error (endpoints s) i) as [t|] eqn:Hn; [|discriminate].
    destruct (endpoint_ready t) eqn:Hr; [|discriminate].
    assert (Hi : i < List.length (endpoints s)).
    { apply nth_error_Some. rewrite Hn. discriminate. }
    destruct t as [w|w|r]; [| |discriminate]; unfold step_endpoint;
      cbn [websocket_endpoint].
    + destruct (H3 i w Hn) as [-> Hni].
      destruct (accept i (world (app s))) as [[[]|e] w'] eqn:Ha.
      * rewrite (bind_value _ _ _ _ _ (connect_accepted _ _ _ Ha)).
        unfold ret. intros [= <-]. unfold distinct. simpl.
        rewrite length_set_nth.
        split.
        { apply NoDup_app; [exact H1|repeat constructor; simpl; tauto|].
          intros a Ha1 [<-|[]]. exact (Hni Ha1). }
        split.
        { intros w Hw. apply in_app_or in Hw. destruct Hw as [Hw|[<-|[]]]; auto. }
        split; intros j w; rewrite nth_error_set_nth;
          destruct (Nat.eqb_spec j i) as [->|Hne].
        { destruct (i <? List.length (endpoints s)); discriminate. }
        { intros Hj. destruct (H3 j w Hj) as [-> Hnj]. split; [reflexivity|].
          intros Hin. apply in_app_or in Hin. destruct Hin as [Hin|[Heq|[]]];
            [exact (Hnj Hin)|congruence]. }
        { destruct (i <? List.length (endpoints s)); [|discriminate].
          now intros [= <-]. }
        { apply H4. }
      * unfold bind. rewrite (connect_refused _ _ _ _ Ha).
        intros [= <-]. unfold distinct. simpl. rewrite length_set_nth.
        split; [exact H1|]. split; [exact H2|].
        split; intros j w; rewrite nth_error_set_nth;
          destruct (Nat.eqb_spec j i) as [->|Hne];
          try (destruct (i <? List.length (endpoints s)); discriminate).
        { apply H3. }
        { apply H4. }
    + pose proof (H4 i w Hn) as ->.
      assert (Hrecv : exists t' st',
                 shrinks (app s) st' /\
                 (forall w, t' <> Accepting w) /\ (forall w, t' = Receiving w -> w = i) /\
                 (let (r, st1) := (r <- try_except (await_receive_text i);;
                      match r with
                      | Ok _ => ret (Receiving i)
                      | Raise WebSocketDisconnect =>
                          bind (disconnect i) (fun _ => ret (EndpointDone (Ok tt)))
                      | Raise e => raise e
                      end) (app s) in
                  match r with
                  | Ok t1 => (t1, st1)
                  | Raise e => (EndpointDone (Raise e), st1)
                  end) = (t', st')).
      { rewrite bind_try. unfold await_receive_text.
        destruct (receive_text i (world (app s))) as [[text|e] w']; cbn [fst snd].
        - do 2 eexists. split; [|split; [|split; [|reflexivity]]].
          + now apply shrinks_same.
          + discriminate.
          + now intros w [= <-].
        - destruct e;
            try (do 2 eexists; split; [|split; [|split; [|reflexivity]]];
                 [now apply shrinks_same|discriminate|discriminate]).
          pose proof (shrinks_disconnect i (set_world w' (app s))) as Hsd.
          unfold bind.
          destruct (disconnect i (set_world w' (app s))) as [[u|e] st1];
            do 2 eexists; (split; [|split; [|split; [|reflexivity]]]);
            try discriminate; exact Hsd. }
      destruct Hrecv as (t' & st' & Hs & Hna & Hrc & ->).
      intros [= <-].
      destruct (distinct_shrinks s st' Hd Hs) as (D1 & D2 & D3 & D4).
      unfold distinct. simpl in *. rewrite length_set_nth.
      split; [exact D1|]. split; [exact D2|].
      split; intros j w; rewrite nth_error_set_nth;
        destruct (Nat.eqb_spec j i) as [->|Hne].
      * destruct (i <? List.length (endpoints s)); [|discriminate].
        intros [= Ht]. now destruct (Hna w).
      * apply D3.
      * destruct (i <? List.length (endpoints s)); [|discriminate].
        intros [= Ht]. exact (Hrc w Ht).
      * apply D4.
  - destruct (notify_ready _ _ _); [|discriminate].
    destruct (cancel_requested s); [intros [= <-]; exact Hd|].
    pose proof (shrinks_step_notify (notify_task s) (app s)) as Hs.
    destruct (step_notify (notify_task s) (app s)) as [t' st']. intros [= <-].
    exact (distinct_shrinks s st' Hd Hs).
  - unfold handle_signal. destruct (shutdown_event (app s)); intros [= <-]; exact Hd.
  - destruct (nth_error (signal_tasks s) i) as [t|]; [|discriminate].
    destruct (shutdown_ready _ t); [|discriminate].
    pose proof (shrinks_step_shutdown t (app s)) as Hs.
    destruct (step_shutdown t (app s)) as [t' st']. intros [= <-].
    exact (distinct_shrinks s st' Hd Hs).
  - destruct (lifespan s); try discriminate.
    pose proof (shrinks_step_shutdown ShutdownCreated (app s)) as Hs.
    destruct (step_shutdown ShutdownCreated (app s)) as [t' st']. intros [= <-].
    apply distinct_lifespan_after. exact (distinct_shrinks s st' Hd Hs).
  - destruct (lifespan s) as [|t| |r]; try discriminate.
    + destruct (shutdown_ready _ t); [|discriminate].
      pose proof (shrinks_step_shutdown t (app s)) as Hs.
      destruct (step_shutdown t (app s)) as [t' st']. intros [= <-].
      apply distinct_lifespan_after. exact (distinct_shrinks s st' Hd Hs).
    + destruct (notify_task s) eqn:Hn; try discriminate. intros [= <-].
      apply (distinct_lifespan_after (ShutdownDone (Ok tt))) in Hd.
      unfold lifespan_after, cancel in Hd. rewrite Hn in Hd. exact Hd.
Qed.

(** X13: in every execution of the server the registry lists no websocket
    twice: each endpoint calls [connect] once, on a websocket of its own. *)
Lemma registry_lists_no_websocket_twice events :
  forall (now : datetime) (w : World) (s : Server World),
  run events (startup now w) = Some s -> NoDup (active_connections (app s)).
Proof.
  intros now w s Hrun.
  assert (H : distinct s); [|exact (proj1 H)].
  assert (H0 : distinct (startup now w)).
  { unfold distinct. simpl. split; [constructor|]. split; [tauto|].
    split; intros [|i] x; discriminate. }
  revert H0 Hrun. generalize (startup now w).
  induction events as [|e events IH]; intros s0 H0; simpl.
  - now intros [= <-].
  - destruct (step e s0) as [s1|] eqn:Hs; [|discriminate].
    apply IH. exact (distinct_step e s0 s1 H0 Hs).
Qed.

(** ** The timestamp and the event *)

Lemma entered_refl (st : AppState World) : stays_entered st st.
Proof. exact (fun H => H). Qed.

Lemma entered_trans (a b c : AppState World) :
  stays_entered a b -> stays_entered b c -> stays_entered a c.
Proof. unfold stays_entered. tauto. Qed.

Lemma entered_world w (st : AppState World) : stays_entered st (set_world w st).
Proof. exact (fun H => H). Qed.

Lemma entered_event (st : AppState World) : stays_entered st (set_event st).
Proof. exact (fun H => H). Qed.

Lemma entered_requested t (st : AppState World) :
  stays_entered st (set_requested_at t st).
Proof. intros _. unfold entered. simpl. discriminate. Qed.

Lemma entered_line e (st : AppState World) : stays_entered st (add_log e st).
Proof. exact (fun H => H). Qed.

Lemma entered_connect w : keeps (World:=World) stays_entered (connect w).
Proof.
  intros st. unfold connect, await_accept. run_monad.
  destruct (accept w (world st)) as [[u|e] w']; exact (fun H => H).
Qed.

Lemma entered_disconnect w : keeps (World:=World) stays_entered (disconnect w).
Proof.
  intros st.
  destruct (in_dec Nat.eq_dec w (active_connections st)) as [Hin|Hn].
  - destruct (disconnect_present w st Hin) as (l' & _ & _ & ->). exact (fun H => H).
  - rewrite disconnect_absent by assumption. exact (fun H => H).
Qed.

Create HintDb entered discriminated.
#[local] Hint Resolve entered_refl entered_trans entered_world entered_event
  entered_requested entered_line entered_connect entered_disconnect : entered.

Lemma entered_step_shutdown t (st : AppState World) :
  shutdown_ready (utcnow st) t = true ->
  (started t -> entered st) ->
  entered (snd (step_shutdown t st)).
Proof.
  assert (Hafter : forall p, keeps (World:=World) stays_entered (shutdown_after p))
    by (intros p; apply keeps_shutdown_after; eauto with entered).
  assert (Hnext : forall text i disc,
             keeps (World:=World) stays_entered (broadcast_next text i disc))
    by (intros; apply keeps_broadcast_next; eauto with entered).
  intros Hready Hstarted. unfold step_shutdown.
  assert (Hgoal : entered (snd (graceful_shutdown t st))).
  { destruct t as [|k|deadline wake|r]; cbn [graceful_shutdown].
    - rewrite bind_value with (a := utcnow st) (st' := st) by reflexivity.
      rewrite bind_modify, bind_logger.
      apply (keeps_bind stays_entered entered_trans _ _ (Hnext _ _ _) Hafter).
      unfold entered. simpl. discriminate.
    - apply (keeps_bind stays_entered entered_trans (broadcast_resume k) shutdown_after);
        [apply keeps_broadcast_resume; eauto with entered|exact Hafter
        |exact (Hstarted I)].
    - apply (keeps_poll stays_entered); eauto with entered. exact (Hstarted I).
    - discriminate. }
  now destruct (graceful_shutdown t st) as [[t'|e] st'].
Qed.

Lemma same_shutdown_step_endpoint t (st : AppState World) :
  same_shutdown st (snd (step_endpoint t st)).
Proof.
  assert (H : keeps (World:=World) same_shutdown (websocket_endpoint t)).
  { apply keeps_websocket_endpoint.
    - now split.
    - intros a b c [H1 H2] [H3 H4]. split; congruence.
    - now split.
    - intros w st0. unfold connect, await_accept. run_monad.
      destruct (accept w (world st0)) as [[u|e] w']; now split.
    - intros w st0.
      destruct (in_dec Nat.eq_dec w (active_connections st0)) as [Hin|Hn].
      + destruct (disconnect_present w st0 Hin) as (l' & _ & _ & ->). now split.
      + rewrite disconnect_absent by assumption. now split. }
  unfold step_endpoint. specialize (H st).
  now destruct (websocket_endpoint t st) as [[t'|e] st'].
Qed.

Lemma same_shutdown_step_notify t (st : AppState World) :
  same_shutdown st (snd (step_notify t st)).
Proof.
  assert (H : keeps (World:=World) same_shutdown (notify_clients_periodically t)).
  { apply keeps_notify_clients_periodically.
    - now split.
    - intros a b c [H1 H2] [H3 H4]. split; congruence.
    - now split.
    - now split.
    - intros w st0.
      destruct (in_dec Nat.eq_dec w (active_connections st0)) as [Hin|Hn].
      + destruct (disconnect_present w st0 Hin) as (l' & _ & _ & ->). now split.
      + rewrite disconnect_absent by assumption. now split.
    - now split. }
  unfold step_notify. specialize (H st).
  now destruct (notify_clients_periodically t st) as [[t'|e] st'].
Qed.

Lemma timestamped_lifespan_after t (s : Server World) :
  entered (app s) -> timestamped (lifespan_after t s).
Proof.
  intros He.
  assert (Hw : forall s0 : Server World,
             shutdown_requested_at (app (await_notify_task s0)) =
             shutdown_requested_at (app s0)).
  { intros s0. unfold await_notify_task.
    destruct (notify_task s0) as [| | |[u'|[]]]; reflexivity. }
  assert (H : entered (app (lifespan_after t s))).
  { unfold lifespan_after, entered.
    destruct t as [| | |[u|e]]; lazy beta iota; trivial.
    now rewrite Hw, (proj1 (cancel_bound s)). }
  repeat split; intros; exact H.
Qed.

Lemma timestamped_step e (s s' : Server World) :
  timestamped s -> step e s = Some s' -> timestamped s'.
Proof.
  intros (H1 & H2 & H3).
  destruct e as [seconds| |i| |signum|i| |]; cbn [step].
  - intros [= <-]. exact (conj H1 (conj H2 H3)).
  - intros [= <-]. exact (conj H1 (conj H2 H3)).
  - destruct (nth_error (endpoints s) i) as [t|]; [|discriminate].
    destruct (endpoint_ready t); [|discriminate].
    pose proof (same_shutdown_step_endpoint t (app s)) as [Ha Hb].
    destruct (step_endpoint t (app s)) as [t' st']. intros [= <-].
    unfold timestamped, entered in *. simpl in *. rewrite Ha, Hb.
    exact (conj H1 (conj H2 H3)).
  - destruct (notify_ready _ _ _); [|discriminate].
    destruct (cancel_requested s).
    + intros [= <-]. exact (conj H1 (conj H2 H3)).
    + pose proof (same_shutdown_step_notify (notify_task s) (app s)) as [Ha Hb].
      destruct (step_notify (notify_task s) (app s)) as [t' st']. intros [= <-].
      unfold timestamped, entered in *. simpl in *. rewrite Ha, Hb.
      exact (conj H1 (conj H2 H3)).
  - unfold handle_signal. case_eq (shutdown_event (app s)); intros He [= <-].
    + exact (conj H1 (conj H2 H3)).
    + unfold timestamped, entered in *. simpl. rewrite He.
      split; [discriminate|]. split; [|exact H3].
      intros t Hin Hst. apply in_app_or in Hin. destruct Hin as [Hin|[<-|[]]].
      * exact (H2 t Hin Hst).
      * destruct Hst.
  - destruct (nth_error (signal_tasks s) i) as [t|] eqn:Hn; [|discriminate].
    destruct (shutdown_ready _ t) eqn:Hr; [|discriminate].
    pose proof (entered_step_shutdown t (app s) Hr
                  (H2 t (nth_error_In _ _ Hn))) as He.
    destruct (step_shutdown t (app s)) as [t' st']. intros [= <-].
    repeat split; intros; exact He.
  - destruct (lifespan s); try discriminate.
    pose proof (entered_step_shutdown ShutdownCreated (app s) eq_refl
                  (fun H : started ShutdownCreated => match H with end)) as He.
    destruct (step_shutdown ShutdownCreated (app s)) as [t' st']. intros [= <-].
    now apply timestamped_lifespan_after.
  - destruct (lifespan s) as [|t| |r] eqn:Hl; try discriminate.
    + destruct (shutdown_ready _ t) eqn:Hr; [|discriminate].
      pose proof (entered_step_shutdown t (app s) Hr (H3 t eq_refl)) as He.
      destruct (step_shutdown t (app s)) as [t' st']. intros [= <-].
      now apply timestamped_lifespan_after.
    + destruct (notify_task s) as [| | |[u|[]]] eqn:Hn; try discriminate;
        intros [= <-]; unfold await_notify_task; rewrite Hn;
        unfold timestamped, entered in *; simpl;
        (split; [assumption|split; [assumption|discriminate]]).
Qed.

(** [graceful_shutdown] has no test of its own: entered in any state, set
    event and earlier timestamp included, it stamps the current time and
    starts the broadcast of its notice. *)
Lemma graceful_shutdown_has_no_guard (st : AppState World) c l :
  active_connections st = c :: l ->
  step_shutdown ShutdownCreated st =
    (ShutdownSending (mkSending shutdown_notice c 1 []),
     add_log ShutdownSignalReceived (set_requested_at (utcnow st) st)).
Proof.
  intros Hl. unfold step_shutdown. cbn [graceful_shutdown].
  rewrite bind_value with (a := utcnow st) (st' := st) by reflexivity.
  rewrite bind_modify, bind_logger. unfold broadcast_start, broadcast_next.
  rewrite bind_assoc.
  rewrite bind_value
    with (a := c :: l)
         (st' := add_log ShutdownSignalReceived (set_requested_at (utcnow st) st))
    by (unfold gets; simpl; now rewrite Hl).
  reflexivity.
Qed.

(** X14: in every execution, once [shutdown_event] is set the timestamp is there:
    what [/status] calls [shutdown_requested] implies its
    [shutdown_requested_at]; the converse fails while a shutdown drains. *)
Lemma shutdown_event_implies_timestamp events :
  forall (now : datetime) (w : World) (s : Server World),
  run events (startup now w) = Some s ->
  status_shutdown_requested (get_status (app s)) = true ->
  status_shutdown_requested_at (get_status (app s)) <> None.
Proof.
  intros now w s Hrun.
  assert (H : timestamped s).
  { assert (H0 : timestamped (startup now w)).
    { unfold timestamped. simpl. repeat split; try discriminate. tauto. }
    revert H0 Hrun. generalize (startup now w).
    induction events as [|e events IH]; intros s0 H0; simpl.
    - now intros [= <-].
    - destruct (step e s0) as [s1|] eqn:Hs; [|discriminate].
      apply IH. exact (timestamped_step e s0 s1 H0 Hs). }
  destruct H as (H1 & _). unfold get_status. simpl. intros He.
  specialize (H1 He). unfold entered in H1.
  now destruct (shutdown_requested_at (app s)).
Qed.

(** C5 (as the program has it): take any execution from start-up to a state
    [s] where [shutdown_event] is set, and on from there to [s'].  From [s]
    on the notifier announces at most one more periodic broadcast, the one
    of a notifier that was asleep when the event was set and wakes before it
    tests the event again; it announces none once [notify_task.cancel()] has
    been called.  [lifespan] calls it right after its [graceful_shutdown]
    has returned: once [lifespan] is past that point the cancellation is
    pending or the notifier has ended, and no periodic broadcast is
    announced from then on.  And the lifespan has not finished normally
    unless the notifier has ended. *)
Theorem notifier_after_shutdown_event
  (now : datetime) (w : World) (before after : list event) (s s' : Server World) :
  run before (startup now w) = Some s ->
  shutdown_event (app s) = true ->
  run after s = Some s' ->
  periodic_broadcasts (log (app s')) <= periodic_broadcasts (log (app s)) + 1 /\
  (cancel_requested s = true ->
   periodic_broadcasts (log (app s')) <= periodic_broadcasts (log (app s))) /\
  (lifespan s = AwaitingNotify \/ lifespan s = LifespanDone (Ok tt) ->
   (cancel_requested s = true \/ exists r, notify_task s = NotifyDone r) /\
   periodic_broadcasts (log (app s')) <= periodic_broadcasts (log (app s))) /\
  (lifespan s' = LifespanDone (Ok tt) -> exists r, notify_task s' = NotifyDone r).
Proof.
  intros Hb He Ha.
  destruct (run_bound after s s' He Ha) as [_ Hle]. unfold announced in Hle.
  assert (Ho : outstanding s <= 1).
  { unfold outstanding, pending.
    destruct (cancel_requested s); [lia|]. destruct (notify_task s); lia. }
  assert (Hoff : called_off s).
  { apply (run_called_off before (startup now w) s); [|exact Hb].
    unfold called_off. simpl. intros [H|H]; discriminate. }
  split; [lia|]. split; [|split].
  - intros Hc. unfold outstanding in Hle at 2. rewrite Hc in Hle. lia.
  - intros Hl. split; [exact (Hoff Hl)|].
    assert (H0 : outstanding s = 0).
    { unfold outstanding. destruct (Hoff Hl) as [Hc|(r & Hn)].
      - now rewrite Hc.
      - rewrite Hn. now destruct (cancel_requested s). }
    lia.
  - apply (run_awaited after s s'); [|exact Ha].
    apply (run_awaited before (startup now w) s); [|exact Hb].
    unfold awaited. simpl. discriminate.
Qed.

End Properties.

(** * The program on the [Net] transport *)

Lemma disconnect_absent_is_noop_witness :
  ~ In 5 (active_connections (manager_on [1; 2] [])) /\
  disconnect 5 (manager_on [1; 2] []) = (Ok tt, manager_on [1; 2] []).
Proof.
  assert (H : ~ In 5 (active_connections (manager_on [1; 2] []))).
  { simpl. intros [H|[H|[]]]; discriminate. }
  split; [exact H|].
  exact (disconnect_absent_is_noop 5 (manager_on [1; 2] []) H).
Defined.


Lemma broadcast_all_sent_keeps_registry_witness :
  Forall (fun o => snd o = Ok tt)
    (send_outcomes "hello" (active_connections (manager_on [1; 2; 3] []))
                   (world (manager_on [1; 2; 3] []))) /\
  exists st',
    broadcast "hello" (manager_on [1; 2; 3] []) = (Ok tt, st') /\
    active_connections st' = [1; 2; 3] /\ log st' = [].
Proof.
  assert (H : Forall (fun o => snd o = Ok tt)
                (send_outcomes "hello" (active_connections (manager_on [1; 2; 3] []))
                               (world (manager_on [1; 2; 3] []))))
    by (repeat constructor).
  split; [exact H|].
  exact (broadcast_all_sent_keeps_registry "hello" (manager_on [1; 2; 3] []) H).
Defined.



(** ** Executions of the server *)

(** Gives the state an execution ends in. *)
Ltac exists_run events s0 :=
  let r := eval vm_compute in (run events s0) in
  match r with
  | Some ?s => exists s
  end.

Ltac by_running := repeat (split; [vm_compute; reflexivity|]); vm_compute; reflexivity.

(** The same, keeping the equation of the run as [Hrun]. *)
Ltac exists_ran events s0 :=
  let r := eval vm_compute in (run events s0) in
  match r with
  | Some ?s =>
      exists s;
      assert (Hrun : run events s0 = Some s) by (vm_compute; reflexivity);
      split; [exact Hrun|]
  end.

(** C1, on the program: one client is connected; SIGTERM starts a first
    [graceful_shutdown], which records the time [0] and sends its notice; a
    second SIGTERM seven seconds later, while the first is still draining,
    passes the test of [handle_signal] (the event is set only when a
    shutdown ends) and starts a second [graceful_shutdown].  The second one
    overwrites [shutdown_requested_at] with [7], sends the notice again, and
    both go on to wait until [1807]. *)
Theorem second_shutdown_request_takes_effect :
  exists s1 s2,
    run [Open; Endpoint 0; Signal 15; SignalTask 0] (server_on []) = Some s1 /\
    shutdown_requested_at (app s1) = Some 0 /\
    shutdown_event (app s1) = false /\
    run [Tick 7; Signal 15; SignalTask 1; SignalTask 0; SignalTask 1] s1 = Some s2 /\
    shutdown_requested_at (app s2) = Some 7 /\
    Net.delivered (world (app s2)) = [(0, shutdown_notice); (0, shutdown_notice)] /\
    signal_tasks s2 = [ShutdownSleeping 1807 12; ShutdownSleeping 1807 12].
Proof.
  exists_run [Open; Endpoint 0; Signal 15; SignalTask 0] (server_on []).
  exists_run [Open; Endpoint 0; Signal 15; SignalTask 0;
              Tick 7; Signal 15; SignalTask 1; SignalTask 0; SignalTask 1] (server_on []).
  by_running.
Qed.

(** The same once the first shutdown is over: the [graceful_shutdown] that
    [lifespan] awaits on exit has no test at all. *)
Example shutdown_after_shutdown_takes_effect :
  exists s1 s2,
    run [Open; Endpoint 0; Signal 15; SignalTask 0; SignalTask 0; Tick 1800; SignalTask 0]
        (server_on []) = Some s1 /\
    shutdown_event (app s1) = true /\
    shutdown_requested_at (app s1) = Some 0 /\
    run [Exit; Lifespan] s1 = Some s2 /\
    shutdown_requested_at (app s2) = Some 1800 /\
    Net.delivered (world (app s2)) = [(0, shutdown_notice); (0, shutdown_notice)] /\
    lifespan s2 = ShuttingDown (ShutdownSleeping 3600 1805).
Proof.
  exists_run [Open; Endpoint 0; Signal 15; SignalTask 0; SignalTask 0; Tick 1800;
              SignalTask 0] (server_on []).
  exists_run [Open; Endpoint 0; Signal 15; SignalTask 0; SignalTask 0; Tick 1800;
              SignalTask 0; Exit; Lifespan] (server_on []).
  by_running.
Qed.

(** C2, on the program: while the shutdown that was requested at time [0]
    is draining, [/status] answers that no shutdown has been requested and
    gives the time it was requested at. *)
Theorem status_while_draining :
  exists s,
    run [Open; Endpoint 0; Signal 15; SignalTask 0] (server_on []) = Some s /\
    signal_tasks s =
      [ShutdownSending (mkSending shutdown_notice 0 1 [])] /\
    get_status (app s) = mkStatus 1 false (Some 0).
Proof.
  exists_run [Open; Endpoint 0; Signal 15; SignalTask 0] (server_on []).
  by_running.
Qed.

(** C5, against the claim: the notifier is asleep when a shutdown on an
    empty registry sets the event; a client then connects; when the sleep is
    over the notifier announces a broadcast and sends the notification. *)
Lemma periodic_broadcast_after_shutdown_event :
  exists s s',
    run [Notify; Signal 15; SignalTask 0; Open; Endpoint 0; Tick 10] (server_on [])
      = Some s /\
    shutdown_event (app s) = true /\
    periodic_broadcasts (log (app s)) = 0 /\
    Net.delivered (world (app s)) = [] /\
    run [Notify; Notify] s = Some s' /\
    periodic_broadcasts (log (app s')) = 1 /\
    Net.delivered (world (app s')) = [(0, test_notification)].
Proof.
  exists_run [Notify; Signal 15; SignalTask 0; Open; Endpoint 0; Tick 10] (server_on []).
  exists_run [Notify; Signal 15; SignalTask 0; Open; Endpoint 0; Tick 10; Notify; Notify]
             (server_on []).
  by_running.
Qed.

(** The server leaves with nobody connected while the notifier sleeps:
    [lifespan] is past its [graceful_shutdown], the event is set and the
    cancellation is pending.  A client connects and the sleep ends: the
    notifier is cancelled instead of broadcasting. *)
Lemma notifier_after_shutdown_event_witness :
  exists s s',
    run [Notify; Exit] (server_on []) = Some s /\
    shutdown_event (app s) = true /\
    run [Open; Endpoint 0; Tick 10; Notify; Lifespan] s = Some s' /\
    lifespan s = AwaitingNotify /\
    (cancel_requested s = true \/ exists r, notify_task s = NotifyDone r) /\
    periodic_broadcasts (log (app s')) <= periodic_broadcasts (log (app s)) /\
    (lifespan s' = LifespanDone (Ok tt) -> exists r, notify_task s' = NotifyDone r).
Proof.
  exists_run [Notify; Exit] (server_on []).
  exists_run [Notify; Exit; Open; Endpoint 0; Tick 10; Notify; Lifespan] (server_on []).
  match goal with
  | |- ?A /\ ?B /\ ?C /\ ?D /\ _ =>
      assert (Hb : A) by (vm_compute; reflexivity);
      assert (He : B) by (vm_compute; reflexivity);
      assert (Ha : C) by (vm_compute; reflexivity);
      assert (Hl : D) by reflexivity
  end.
  split; [exact Hb|]. split; [exact He|]. split; [exact Ha|]. split; [exact Hl|].
  destruct (notifier_after_shutdown_event 0 (Net.mk [] [] []) _ _ _ _ Hb He Ha)
    as (_ & _ & H3 & H4).
  destruct (H3 (or_introl Hl)) as [Hc Hp].
  split; [exact Hc|]. split; [exact Hp|exact H4].
Defined.



(** And a removal: member [0] is lost and its endpoint removes it while the
    pass is suspended at the send to it; the iterator, already at index 1 of
    a list that now has one item, stops, and member [1] is sent nothing. *)
Example broadcast_skips_after_a_disconnect :
  exists s s',
    run [Open; Open; Endpoint 0; Endpoint 1; Notify; Tick 10; Notify] (server_on [0])
      = Some s /\
    active_connections (app s) = [0; 1] /\
    run [Endpoint 0; Notify] s = Some s' /\
    active_connections (app s') = [1] /\
    notify_task s' = NotifySleeping 20 /\
    Net.delivered (world (app s')) = [].
Proof.
  exists_run [Open; Open; Endpoint 0; Endpoint 1; Notify; Tick 10; Notify] (server_on [0]).
  exists_run [Open; Open; Endpoint 0; Endpoint 1; Notify; Tick 10; Notify;
              Endpoint 0; Notify] (server_on [0]).
  by_running.
Qed.

(** * Further properties of the program *)

Section Further.

Context {World : Type} {transport : Transport World}.

Notation "x <- m ;; k" := (bind m (fun x => k))
  (at level 61, m at next level, right associativity).

Ltac unfold_monad :=
  unfold bind, ret, raise, try_except, gets, modify, logger; simpl.

(** ** The registry *)

Lemma list_remove_split x l :
  In x l ->
  exists pre post,
    l = pre ++ x :: post /\ ~ In x pre /\ list_remove x l = Some (pre ++ post).
Proof.
  induction l as [|y t IH]; simpl; [tauto|].
  intros H. destruct (Nat.eqb_spec x y) as [->|Hne].
  - exists [], t. repeat split; auto.
  - destruct H as [H|H]; [congruence|].
    destruct (IH H) as (pre & post & -> & Hn & ->).
    exists (y :: pre), post. repeat split; trivial.
    simpl. intros [Hy|Hp]; [congruence|tauto].
Qed.

(** X1: [disconnect] of a listed connection drops its first entry only, as
    [list.remove] does: the entries before and after it keep their order, a
    later entry of the same connection stays, the count goes down by one and
    the remaining count is logged. *)
Theorem disconnect_drops_first_entry_only (websocket : WebSocket) (st : AppState World) :
  In websocket (active_connections st) ->
  exists pre post,
    active_connections st = pre ++ websocket :: post /\
    ~ In websocket pre /\
    disconnect websocket st =
      (Ok tt,
       add_log (ClientDisconnected (count st - 1)) (set_connections (pre ++ post) st)).
Proof.
  intros Hin.
  destruct (list_remove_split _ _ Hin) as (pre & post & Hl & Hn & Hrm).
  exists pre, post. split; [exact Hl|]. split; [exact Hn|].
  unfold disconnect. unfold_monad.
  destruct (in_dec Nat.eq_dec websocket (active_connections st)); [|contradiction].
  rewrite Hrm. unfold_monad. unfold add_log, set_connections, count. simpl.
  rewrite Hl, !length_app. simpl.
  replace (List.length pre + S (List.length post) - 1)
    with (List.length pre + List.length post) by lia.
  reflexivity.
Qed.

Lemma list_remove_last x l : ~ In x l -> list_remove x (l ++ [x]) = Some l.
Proof.
  induction l as [|y t IH]; simpl.
  - now rewrite Nat.eqb_refl.
  - intros H. destruct (Nat.eqb_spec x y) as [->|Hne]; [tauto|].
    rewrite IH; tauto.
Qed.

(** X2: for a websocket that is not listed and whose [accept] returns,
    [connect] followed by [disconnect] gives back the list as it was, order
    included; both calls return normally and write one line each. *)
Theorem connect_then_disconnect_restores_registry
  (websocket : WebSocket) (st : AppState World) (w' : World) :
  ~ In websocket (active_connections st) ->
  accept websocket (world st) = (Ok tt, w') ->
  let st1 := snd (connect websocket st) in
  let st2 := snd (disconnect websocket st1) in
  fst (connect websocket st) = Ok tt /\
  fst (disconnect websocket st1) = Ok tt /\
  active_connections st2 = active_connections st /\
  log st2 = log st ++ [ClientConnected (S (count st)); ClientDisconnected (count st)].
Proof.
  intros Hn Ha. cbv zeta. rewrite (connect_accepted _ _ _ Ha). cbn [fst snd].
  unfold disconnect. unfold_monad.
  destruct (in_dec Nat.eq_dec websocket (active_connections st ++ [websocket]))
    as [_|Hout]; [|exfalso; apply Hout, in_or_app; right; now left].
  rewrite (list_remove_last _ _ Hn). simpl.
  repeat split. unfold count. now rewrite <- app_assoc.
Qed.

(** ** broadcast *)

Lemma send_all_cut message l : forall disc (st : AppState World),
  forallb soft (send_outcomes message l (world st)) = false ->
  exists e, fst (send_all message l disc st) = Raise e /\ is_Exception e = false.
Proof.
  induction l as [|c l IH]; intros disc st; simpl; [discriminate|].
  rewrite bind_try. unfold await_send_text.
  destruct (send_text c message (world st)) as [[u|e] w']; simpl.
  - intros H. exact (IH disc (set_world w' st) H).
  - unfold soft at 1. simpl. destruct (is_Exception e) eqn:He; simpl.
    + intros H. rewrite bind_logger.
      exact (IH (disc ++ [c]) (add_log (ErrorBroadcasting e) (set_world w' st)) H).
    + intros _. exists e. split; [reflexivity|exact He].
Qed.

(** X3: when a send of the pass raises something that is not an
    [Exception] (the task is cancelled there), [broadcast] raises it to its
    caller and its clean-up does not run: the list is as before the call,
    the members whose send had already failed included, and no removal is
    logged. *)
Theorem broadcast_cut_short_removes_nobody (message : string) (st : AppState World) :
  forallb soft (send_outcomes message (active_connections st) (world st)) = false ->
  exists e st',
    broadcast message st = (Raise e, st') /\
    is_Exception e = false /\
    active_connections st' = active_connections st /\
    effective_removes (log st') = effective_removes (log st).
Proof.
  intros Hcut.
  destruct (send_all_cut message _ [] st Hcut) as (e & He & Hb).
  pose proof (send_all_same_registry message (active_connections st) [] st)
    as (Hl & _ & Hr).
  unfold broadcast.
  rewrite bind_value with (a := active_connections st) (st' := st) by reflexivity.
  unfold bind.
  destruct (send_all message (active_connections st) [] st) as [[d|e'] st'];
    [discriminate|].
  cbn [fst snd] in *. injection He as ->.
  exists e, st'. repeat split; assumption.
Qed.

(** X4: a failed send does not stop the pass.  When every failure is an
    [Exception], the transport has seen, when [broadcast] returns, one send
    to each member of the list as it was, in order, whatever failed on the
    way; one outcome per member. *)
Theorem broadcast_sends_to_every_member_once (message : string) (st : AppState World) :
  Forall send_failure_only (send_outcomes message (active_connections st) (world st)) ->
  world (snd (broadcast message st)) =
    world_after message (active_connections st) (world st) /\
  map fst (send_outcomes message (active_connections st) (world st)) =
    active_connections st.
Proof.
  intros Hall. split; [|apply send_outcomes_fst].
  destruct (failed_members_sub
              (send_outcomes message (active_connections st) (world st)))
    as (rest & Hsub).
  rewrite send_outcomes_fst in Hsub.
  unfold broadcast.
  rewrite bind_value with (a := active_connections st) (st' := st) by reflexivity.
  rewrite (bind_value _ _ _ _ _ (send_all_spec message _ [] st Hall)).
  rewrite app_nil_l.
  match goal with |- context [disconnect_all ?d ?s] =>
    destruct (disconnect_all_spec d s rest Hsub) as (l' & _ & ->) end.
  reflexivity.
Qed.

(** ** graceful_shutdown, step by step *)

Lemma is_empty_nil (st : AppState World) :
  is_empty st = true <-> active_connections st = [].
Proof.
  unfold is_empty. destruct (active_connections st); simpl; split;
    intros H; try reflexivity; discriminate.
Qed.

Lemma is_empty_false (st : AppState World) :
  active_connections st <> [] -> is_empty st = false.
Proof.
  intros H. destruct (is_empty st) eqn:He; [|reflexivity].
  apply is_empty_nil in He. contradiction.
Qed.

Lemma poll_sleeps deadline (st : AppState World) :
  active_connections st <> [] -> utcnow st < deadline ->
  poll deadline st =
    (Ok (ShutdownSleeping deadline (utcnow st + 5)),
     add_log (ClientsRemaining (count st)) st).
Proof.
  intros Hl Hlt. unfold poll.
  rewrite bind_value with (a := utcnow st) (st' := st) by reflexivity.
  apply Nat.ltb_lt in Hlt. rewrite Hlt.
  rewrite bind_value with (a := false) (st' := st)
    by (unfold gets; now rewrite is_empty_false).
  reflexivity.
Qed.

Lemma poll_empty deadline (st : AppState World) :
  active_connections st = [] -> utcnow st < deadline ->
  poll deadline st =
    (Ok (ShutdownDone (Ok tt)), set_event (add_log AllClientsDisconnected st)).
Proof.
  intros Hl Hlt. unfold poll.
  rewrite bind_value with (a := utcnow st) (st' := st) by reflexivity.
  apply Nat.ltb_lt in Hlt. rewrite Hlt.
  rewrite bind_value with (a := true) (st' := st)
    by (unfold gets; now rewrite (proj2 (is_empty_nil st) Hl)).
  reflexivity.
Qed.

Lemma poll_late deadline (st : AppState World) :
  deadline <= utcnow st ->
  poll deadline st = (Ok (ShutdownDone (Ok tt)), set_event st).
Proof.
  intros Hle. unfold poll.
  rewrite bind_value with (a := utcnow st) (st' := st) by reflexivity.
  apply Nat.ltb_ge in Hle. rewrite Hle. reflexivity.
Qed.

Lemma shutdown_start_empty (st : AppState World) :
  active_connections st = [] ->
  step_shutdown ShutdownCreated st =
    (ShutdownDone (Ok tt),
     set_event (add_log AllClientsDisconnected
                  (add_log ShutdownSignalReceived (set_requested_at (utcnow st) st)))).
Proof.
  intros Hl. unfold step_shutdown. cbn [graceful_shutdown].
  rewrite bind_value with (a := utcnow st) (st' := st) by reflexivity.
  rewrite bind_modify, bind_logger.
  set (st1 := add_log ShutdownSignalReceived (set_requested_at (utcnow st) st)).
  assert (Hl1 : active_connections st1 = [] ++ []) by exact Hl.
  unfold broadcast_start.
  pose proof (broadcast_next_at shutdown_notice [] [] [] st1 Hl1) as Hn.
  cbn [List.length] in Hn.
  rewrite (bind_value _ _ _ _ _ Hn). cbn [shutdown_after].
  rewrite bind_value with (a := Some (utcnow st)) (st' := st1) by reflexivity.
  rewrite (poll_empty (utcnow st + 1800) st1 Hl); [reflexivity|].
  unfold st1. simpl. lia.
Qed.

(** X6: [graceful_shutdown] entered with an empty registry ends in that
    same step, whatever the state it is entered in: nothing is sent (the
    transport is untouched), the current time is stamped, the event is set,
    and the two lines ["Shutdown signal received..."] and
    ["All clients disconnected..."] are logged. *)
Theorem shutdown_of_empty_registry_ends_at_once (st : AppState World) :
  active_connections st = [] ->
  let st' := snd (step_shutdown ShutdownCreated st) in
  fst (step_shutdown ShutdownCreated st) = ShutdownDone (Ok tt) /\
  shutdown_event st' = true /\
  shutdown_requested_at st' = Some (utcnow st) /\
  world st' = world st /\
  utcnow st' = utcnow st /\
  active_connections st' = [] /\
  log st' = log st ++ [ShutdownSignalReceived; AllClientsDisconnected].
Proof.
  intros Hl. cbv zeta. rewrite (shutdown_start_empty st Hl). cbn [fst snd].
  repeat split; simpl; trivial. now rewrite <- app_assoc.
Qed.

(** ** notify_clients_periodically, at its wake-up *)

(** X7: what the notifier does when its sleep is over.  On an empty
    registry it sends nothing and logs nothing, and goes back to its loop
    test: asleep for ten more seconds, or finished if the event is set.  On
    a registry that is not empty it does not look at the event again: it
    logs the count and starts the pass with the first member. *)
Theorem notifier_wakes_up (wake : datetime) (st : AppState World) :
  (active_connections st = [] ->
   step_notify (NotifySleeping wake) st =
     (if shutdown_event st then NotifyDone (Ok tt)
      else NotifySleeping (utcnow st + 10), st)) /\
  (forall c l, active_connections st = c :: l ->
   step_notify (NotifySleeping wake) st =
     (NotifySending (mkSending test_notification c 1 []),
      add_log (BroadcastingNotification (S (List.length l))) st)).
Proof.
  unfold step_notify. cbn [notify_clients_periodically]. split.
  - intros Hl.
    rewrite bind_value with (a := 0) (st' := st)
      by (unfold gets, count; now rewrite Hl).
    simpl. unfold notify_loop. unfold_monad. now destruct (shutdown_event st).
  - intros c l Hl.
    rewrite bind_value with (a := S (List.length l)) (st' := st)
      by (unfold gets, count; now rewrite Hl).
    simpl. rewrite bind_logger.
    set (st1 := add_log (BroadcastingNotification (S (List.length l))) st).
    assert (Hl1 : active_connections st1 = [] ++ c :: l) by exact Hl.
    unfold broadcast_start.
    pose proof (broadcast_next_at test_notification [] (c :: l) [] st1 Hl1) as Hn.
    cbn [List.length] in Hn.
    rewrite (bind_value _ _ _ _ _ Hn). reflexivity.
Qed.

(** ** The drain against its deadline *)

Lemma nth_error_set_nth_same {A} (l : list A) i (x y : A) :
  nth_error l i = Some y -> nth_error (set_nth i x l) i = Some x.
Proof.
  intros H. rewrite nth_error_set_nth, Nat.eqb_refl.
  assert (Hi : i < List.length l) by (apply nth_error_Some; rewrite H; discriminate).
  apply Nat.ltb_lt in Hi. now rewrite Hi.
Qed.

Lemma poll_round i deadline (s : Server World) rest :
  nth_error (signal_tasks s) i =
    Some (ShutdownSleeping deadline (utcnow (app s) + 5)) ->
  run (Tick 5 :: SignalTask i :: rest) s =
    run rest
      (with_signal_tasks
         (set_nth i
            (fst (step_shutdown (ShutdownSleeping deadline (utcnow (app s) + 5))
                    (set_utcnow (utcnow (app s) + 5) (app s))))
            (signal_tasks s))
         (with_app
            (snd (step_shutdown (ShutdownSleeping deadline (utcnow (app s) + 5))
                    (set_utcnow (utcnow (app s) + 5) (app s))))
            s)).
Proof.
  intros Hn. cbn [run step]. cbn [with_app app signal_tasks set_utcnow utcnow].
  rewrite Hn. cbn [shutdown_ready]. rewrite Nat.leb_refl.
  destruct (step_shutdown _ _) as [t' st']. reflexivity.
Qed.

(** X8: the deadline is the fall-back of the drain.  A shutdown task asleep
    in its polling loop, resumed every five seconds while clients stay
    connected, leaves the event as it is in every round before the
    deadline, and sets it in the first round at or after the deadline: less
    than five seconds late, with the clients still listed. *)
Theorem drain_ends_at_the_deadline (j i : nat) (deadline : datetime) :
  forall s : Server World,
  nth_error (signal_tasks s) i =
    Some (ShutdownSleeping deadline (utcnow (app s) + 5)) ->
  active_connections (app s) <> [] ->
  utcnow (app s) + 5 * j < deadline ->
  deadline <= utcnow (app s) + 5 * j + 5 ->
  exists s1 s2,
    run (poll_rounds i j) s = Some s1 /\
    shutdown_event (app s1) = shutdown_event (app s) /\
    run (poll_rounds i 1) s1 = Some s2 /\
    shutdown_event (app s2) = true /\
    nth_error (signal_tasks s2) i = Some (ShutdownDone (Ok tt)) /\
    utcnow (app s2) = utcnow (app s) + 5 * j + 5 /\
    active_connections (app s2) = active_connections (app s).
Proof.
  induction j as [|j IH]; intros s Hn Hl Hlt Hle.
  - exists s. eexists. split; [reflexivity|]. split; [reflexivity|].
    cbn [poll_rounds]. rewrite (poll_round i deadline s [] Hn).
    unfold step_shutdown. cbn [graceful_shutdown].
    rewrite poll_late by (simpl; lia). cbn [fst snd run].
    split; [reflexivity|]. split; [reflexivity|].
    split; [exact (nth_error_set_nth_same _ _ _ _ Hn)|].
    split; [simpl; lia|reflexivity].
  - cbn [poll_rounds]. rewrite (poll_round i deadline s _ Hn).
    unfold step_shutdown. cbn [graceful_shutdown].
    rewrite poll_sleeps by (simpl; trivial; lia). cbn [fst snd].
    match goal with |- context [run (poll_rounds i j) ?x] => set (s' := x) end.
    assert (Hn' : nth_error (signal_tasks s') i =
                  Some (ShutdownSleeping deadline (utcnow (app s') + 5))).
    { unfold s'. simpl. exact (nth_error_set_nth_same _ _ _ _ Hn). }
    assert (Hnow : utcnow (app s') = utcnow (app s) + 5) by reflexivity.
    destruct (IH s' Hn' Hl) as (s1 & s2 & H1 & H2 & H3 & H4 & H5 & H6 & H7);
      [rewrite Hnow; lia|rewrite Hnow; lia|].
    exists s1, s2. split; [exact H1|]. split; [exact H2|].
    split; [exact H3|]. split; [exact H4|]. split; [exact H5|].
    split; [rewrite H6, Hnow; lia|exact H7].
Qed.

(** ** lifespan on exit *)

(** X9: an idle server leaves cleanly.  With no client connected and the
    notifier asleep, the exit of [lifespan] runs [graceful_shutdown] to its
    end at once, cancels the notifier, which ends with [CancelledError]
    without waiting for the end of its sleep, and finishes normally with
    ["Notification task cancelled"] logged last; nothing is sent. *)
Theorem idle_server_leaves_cleanly (s : Server World) (wake : datetime) :
  lifespan s = Serving ->
  active_connections (app s) = [] ->
  notify_task s = NotifySleeping wake ->
  cancel_requested s = false ->
  exists s',
    run [Exit; Notify; Lifespan] s = Some s' /\
    lifespan s' = LifespanDone (Ok tt) /\
    notify_task s' = NotifyDone (Raise CancelledError) /\
    shutdown_event (app s') = true /\
    shutdown_requested_at (app s') = Some (utcnow (app s)) /\
    world (app s') = world (app s) /\
    log (app s') =
      log (app s) ++
      [ShutdownSignalReceived; AllClientsDisconnected; NotificationTaskCancelled].
Proof.
  destruct s as [st lf nt cr sts eps]. simpl. intros -> Hl -> ->.
  eexists. split.
  - cbn [run step lifespan app]. rewrite (shutdown_start_empty st Hl).
    cbn [lifespan_after cancel await_notify_task with_app with_notify with_lifespan
         notify_task cancel_requested app lifespan signal_tasks endpoints
         notify_ready orb].
    reflexivity.
  - simpl. repeat split. now rewrite <- !app_assoc.
Qed.

(** ** Once the event is set *)

Lemma lifespan_after_keeps_tasks t (s : Server World) :
  signal_tasks (lifespan_after t s) = signal_tasks s /\
  endpoints (lifespan_after t s) = endpoints s /\
  active_connections (app (lifespan_after t s)) = active_connections (app s).
Proof.
  assert (Hw : forall s0 : Server World,
             signal_tasks (await_notify_task s0) = signal_tasks s0 /\
             endpoints (await_notify_task s0) = endpoints s0 /\
             active_connections (app (await_notify_task s0)) =
               active_connections (app s0)).
  { intros s0. unfold await_notify_task.
    destruct (notify_task s0) as [| | |[u'|[]]]; repeat split. }
  assert (Hc : signal_tasks (cancel s) = signal_tasks s /\
               endpoints (cancel s) = endpoints s /\
               app (cancel s) = app s).
  { unfold cancel. destruct (notify_task s); repeat split. }
  unfold lifespan_after.
  destruct t as [| | |[u|e]]; lazy beta iota;
    try (split; [reflexivity|split; reflexivity]).
  destruct (Hw (cancel s)) as (H1 & H2 & H3). destruct Hc as (H4 & H5 & H6).
  rewrite H1, H2, H3, H4, H5, H6. repeat split.
Qed.

Lemma step_settled e (s s' : Server World) :
  shutdown_event (app s) = true -> step e s = Some s' -> settled s s'.
Proof.
  intros He Hs. split; [exact (proj1 (step_bound e s s' He Hs))|].
  revert Hs. destruct e as [seconds| |i| |signum|i| |]; cbn [step].
  - now intros [= <-].
  - now intros [= <-].
  - destruct (nth_error (endpoints s) i) as [t|]; [|discriminate].
    destruct (endpoint_ready t); [|discriminate].
    destruct (step_endpoint t (app s)) as [t' st']. now intros [= <-].
  - destruct (notify_ready _ _ _); [|discriminate].
    destruct (cancel_requested s); [now intros [= <-]|].
    destruct (step_notify (notify_task s) (app s)) as [t' st']. now intros [= <-].
  - unfold handle_signal. rewrite He. now intros [= <-].
  - destruct (nth_error (signal_tasks s) i) as [t|]; [|discriminate].
    destruct (shutdown_ready _ t); [|discriminate].
    destruct (step_shutdown t (app s)) as [t' st']. intros [= <-].
    simpl. apply length_set_nth.
  - destruct (lifespan s); try discriminate.
    destruct (step_shutdown ShutdownCreated (app s)) as [t' st']. intros [= <-].
    now rewrite (proj1 (lifespan_after_keeps_tasks t' _)).
  - destruct (lifespan s) as [|t| |r]; try discriminate.
    + destruct (shutdown_ready _ t); [|discriminate].
      destruct (step_shutdown t (app s)) as [t' st']. intros [= <-].
      now rewrite (proj1 (lifespan_after_keeps_tasks t' _)).
    + destruct (notify_task s) eqn:Hn; try discriminate. intros [= <-].
      unfold await_notify_task. rewrite Hn.
      now destruct r as [u|[]].
Qed.

(** X10: [shutdown_event] is never cleared, and once it is set no signal
    starts a shutdown: in every execution from a state where the event is
    set, the event is still set at the end and [handle_signal] has created
    no task. *)
Theorem no_shutdown_from_a_signal_once_the_event_is_set
  (events : list event) :
  forall s s' : Server World,
  shutdown_event (app s) = true ->
  run events s = Some s' ->
  shutdown_event (app s') = true /\
  List.length (signal_tasks s') = List.length (signal_tasks s).
Proof.
  induction events as [|e events IH]; intros s s' He; simpl.
  - intros [= <-]. split; [exact He|reflexivity].
  - destruct (step e s) as [s1|] eqn:Hs; [|discriminate]. intros Hr.
    destruct (step_settled e s s1 He Hs) as [He1 Hl1].
    destruct (IH s1 s' He1 Hr) as [He2 Hl2].
    split; [exact He2|congruence].
Qed.

(** ** The registry over an execution *)

(** X11: at every moment of every execution of the server, whatever the
    interleaving of its tasks, [count()] is the number of
    ["Client connected"] lines logged so far minus the number of
    ["Client disconnected"] lines. *)
Theorem count_agrees_with_log_in_every_execution
  (events : list event) (now : datetime) (w : World) (s : Server World) :
  run events (startup now w) = Some s ->
  count (app s) = adds (log (app s)) - effective_removes (log (app s)) /\
  effective_removes (log (app s)) <= adds (log (app s)).
Proof.
  intros Hrun.
  assert (H0 : balanced (app (startup now w))) by reflexivity.
  pose proof (balanced_run events (startup now w) s H0 Hrun) as H.
  unfold balanced in H. lia.
Qed.

Lemma endpoint_receiving i (st : AppState World) :
  NoDup (active_connections st) ->
  shrinks st (snd (step_endpoint (Receiving i) st)) /\
  (fst (step_endpoint (Receiving i) st) = EndpointDone (Ok tt) ->
   ~ In i (active_connections (snd (step_endpoint (Receiving i) st)))) /\
  (forall w, fst (step_endpoint (Receiving i) st) <> Accepting w) /\
  (forall w, fst (step_endpoint (Receiving i) st) = Receiving w -> w = i) /\
  fst (step_endpoint (Receiving i) st) <> EndpointDone (Raise WebSocketDisconnect).
Proof.
  intros Hnd. unfold step_endpoint. cbn [websocket_endpoint].
  rewrite bind_try. unfold await_receive_text.
  destruct (receive_text i (world st)) as [[text|e] w']; cbn [fst snd].
  - unfold ret. cbn [fst snd]. split; [now apply shrinks_same|].
    split; [discriminate|]. split; [discriminate|].
    split; [now intros w [= <-]|discriminate].
  - destruct e; try (unfold raise; cbn [fst snd]; split; [now apply shrinks_same|];
                     split; [discriminate|]; split; [discriminate|];
                     split; discriminate).
    destruct (in_dec Nat.eq_dec i (active_connections (set_world w' st))) as [Hin|Hn].
    + destruct (disconnect_present i (set_world w' st) Hin) as (l' & _ & HP & Hd).
      rewrite (bind_value _ _ _ _ _ Hd). unfold ret. cbn [fst snd].
      simpl in HP. split.
      * split; simpl.
        -- intros x Hx. eapply Permutation_in; [symmetry; exact HP|]. now right.
        -- intros _. apply (Permutation_NoDup HP) in Hnd. now inversion Hnd.
      * split; [|split; [discriminate|split; discriminate]]. intros _. simpl.
        apply (Permutation_NoDup HP) in Hnd. now inversion Hnd.
    + rewrite (bind_value _ _ _ _ _ (disconnect_absent i (set_world w' st) Hn)).
      unfold ret. cbn [fst snd]. split; [now apply shrinks_same|].
      split; [intros _; exact Hn|split; [discriminate|split; discriminate]].
Qed.

Lemma endpoint_accepting i (st : AppState World) :
  (fst (step_endpoint (Accepting i) st) = Receiving i /\
   active_connections (snd (step_endpoint (Accepting i) st)) =
     active_connections st ++ [i]) \/
  (exists e, fst (step_endpoint (Accepting i) st) = EndpointDone (Raise e) /\
   active_connections (snd (step_endpoint (Accepting i) st)) = active_connections st).
Proof.
  unfold step_endpoint. cbn [websocket_endpoint].
  destruct (accept i (world st)) as [[[]|e] w'] eqn:Ha.
  - left. rewrite (bind_value _ _ _ _ _ (connect_accepted _ _ _ Ha)).
    unfold ret. now split.
  - right. exists e. unfold bind. rewrite (connect_refused _ _ _ _ Ha). now split.
Qed.

Lemma departed_kept (s s' : Server World) :
  departed s ->
  endpoints s' = endpoints s ->
  (forall w, In w (active_connections (app s')) -> In w (active_connections (app s))) ->
  departed s'.
Proof.
  intros Hd He Hsub i Hi Hin. rewrite He in Hi. exact (Hd i Hi (Hsub _ Hin)).
Qed.

Lemma departed_step e (s s' : Server World) :
  distinct s -> departed s -> step e s = Some s' -> departed s'.
Proof.
  intros (H1 & H2 & H3 & H4) Hd.
  destruct e as [seconds| |i| |signum|i| |]; cbn [step].
  - intros [= <-]. exact Hd.
  - intros [= <-]. intros i Hi. simpl in *.
    rewrite !nth_error_app in Hi.
    destruct (Nat.ltb_spec i (List.length (endpoints s))) as [Hlt|Hge];
      [exact (Hd i Hi)|].
    destruct (i - List.length (endpoints s)) as [|[|d]]; destruct Hi; discriminate.
  - destruct (nth_error (endpoints s) i) as [t|] eqn:Hn; [|discriminate].
    destruct (endpoint_ready t) eqn:Hr; [|discriminate].
    destruct t as [w|w|r]; [| |discriminate].
    + destruct (H3 i w Hn) as [-> Hni].
      pose proof (endpoint_accepting i (app s)) as Hacc.
      destruct (step_endpoint (Accepting i) (app s)) as [t' st']. intros [= <-].
      intros j Hj. simpl in *. rewrite !nth_error_set_nth in Hj.
      destruct (Nat.eqb_spec j i) as [Heq|Hne].
      * destruct (j <? List.length (endpoints s)); [|destruct Hj; discriminate].
        destruct Hacc as [[Ht _]|(e & Ht & Hl)]; rewrite Ht in Hj;
          [destruct Hj; discriminate|].
        rewrite Hl, Heq. exact Hni.
      * intros Hin. apply (Hd j Hj).
        destruct Hacc as [[_ Hl]|(e & _ & Hl)]; rewrite Hl in Hin; trivial.
        apply in_app_or in Hin. destruct Hin as [Hin|[Heq|[]]]; [exact Hin|congruence].
    + pose proof (H4 i w Hn) as ->.
      pose proof (endpoint_receiving i (app s) H1)
        as ([Hs1 _] & Hdone & _ & _ & Hnot).
      destruct (step_endpoint (Receiving i) (app s)) as [t' st']. intros [= <-].
      intros j Hj. simpl in *. rewrite !nth_error_set_nth in Hj.
      destruct (Nat.eqb_spec j i) as [Heq|Hne].
      * destruct (j <? List.length (endpoints s)); [|destruct Hj; discriminate].
        rewrite Heq. destruct Hj as [Hj|Hj]; injection Hj as Hj;
          [exact (Hdone Hj)|contradiction].
      * intros Hin. exact (Hd j Hj (Hs1 _ Hin)).
  - destruct (notify_ready _ _ _); [|discriminate].
    destruct (cancel_requested s); [intros [= <-]; exact Hd|].
    pose proof (shrinks_step_notify (notify_task s) (app s)) as [Hs _].
    destruct (step_notify (notify_task s) (app s)) as [t' st']. intros [= <-].
    apply (departed_kept s); trivial.
  - unfold handle_signal. destruct (shutdown_event (app s)); intros [= <-]; exact Hd.
  - destruct (nth_error (signal_tasks s) i) as [t|]; [|discriminate].
    destruct (shutdown_ready _ t); [|discriminate].
    pose proof (shrinks_step_shutdown t (app s)) as [Hs _].
    destruct (step_shutdown t (app s)) as [t' st']. intros [= <-].
    apply (departed_kept s); trivial.
  - destruct (lifespan s); try discriminate.
    pose proof (shrinks_step_shutdown ShutdownCreated (app s)) as [Hs _].
    destruct (step_shutdown ShutdownCreated (app s)) as [t' st']. intros [= <-].
    destruct (lifespan_after_keeps_tasks t' (with_app st' s)) as (_ & Hk2 & Hk3).
    apply (departed_kept s); trivial. rewrite Hk3. exact Hs.
  - destruct (lifespan s) as [|t| |r]; try discriminate.
    + destruct (shutdown_ready _ t); [|discriminate].
      pose proof (shrinks_step_shutdown t (app s)) as [Hs _].
      destruct (step_shutdown t (app s)) as [t' st']. intros [= <-].
      destruct (lifespan_after_keeps_tasks t' (with_app st' s)) as (_ & Hk2 & Hk3).
      apply (departed_kept s); trivial. rewrite Hk3. exact Hs.
    + destruct (notify_task s) eqn:Hn; try discriminate. intros [= <-].
      apply (departed_kept s); trivial; unfold await_notify_task; rewrite Hn;
        destruct r as [u|[]]; trivial.
Qed.

(** X12: the registry against the endpoints, in every execution.  A
    websocket whose endpoint has handled [WebSocketDisconnect] is not
    listed, and stays out; a listed websocket is one whose endpoint has
    come back from [connect] and is still receiving, or has ended on an
    exception other than [WebSocketDisconnect], which leaves its websocket
    listed. *)
Theorem registry_against_endpoints
  (events : list event) (now : datetime) (w : World) (s : Server World) :
  run events (startup now w) = Some s ->
  (forall i, nth_error (endpoints s) i = Some (EndpointDone (Ok tt)) ->
             ~ In i (active_connections (app s))) /\
  (forall i, In i (active_connections (app s)) ->
             nth_error (endpoints s) i = Some (Receiving i) \/
             exists e, e <> WebSocketDisconnect /\
                       nth_error (endpoints s) i = Some (EndpointDone (Raise e))).
Proof.
  intros Hrun.
  assert (H : distinct s /\ departed s).
  { assert (H0 : distinct (startup now w) /\ departed (startup now w)).
    { split.
      - unfold distinct. simpl. split; [constructor|]. split; [tauto|].
        split; intros [|i] x; discriminate.
      - intros [|i] [H|H]; discriminate. }
    revert H0 Hrun. generalize (startup now w).
    induction events as [|e events IH]; intros s0 [Hd0 Hp0]; simpl.
    - intros [= <-]. now split.
    - destruct (step e s0) as [s1|] eqn:Hs; [|discriminate].
      apply IH. split.
      + exact (distinct_step e s0 s1 Hd0 Hs).
      + exact (departed_step e s0 s1 Hd0 Hp0 Hs). }
  destruct H as [(H1 & H2 & H3 & H4) Hp].
  split; [intros i Hi; exact (Hp i (or_introl Hi))|].
  intros i Hin. specialize (H2 i Hin).
  destruct (nth_error (endpoints s) i) as [t|] eqn:Hn;
    [|apply nth_error_None in Hn; lia].
  destruct t as [x|x|[[]|e]].
  - destruct (H3 i x Hn) as [_ Hout]. contradiction.
  - left. now rewrite (H4 i x Hn).
  - exfalso. exact (Hp i (or_introl Hn) Hin).
  - right. exists e. split; [|reflexivity].
    intros ->. exact (Hp i (or_intror Hn) Hin).
Qed.

(** ** What has returned *)

Lemma post_bind {A B} (P : result B * AppState World -> Prop)
  (m : M World A) (f : A -> M World B) st :
  (forall e st', P (Raise e, st')) ->
  (forall a st', P (f a st')) ->
  P (bind m f st).
Proof. intros H1 H2. unfold bind. destruct (m st) as [[a|e] st']; auto. Qed.

Lemma In_set_nth {A} (x y : A) l : forall i,
  In x (set_nth i y l) -> x = y \/ In x l.
Proof.
  induction l as [|a l IH]; intros [|i]; simpl; try tauto.
  - intros [H|H]; [left; now symmetry|right; now right].
  - intros [H|H]; [right; now left|].
    destruct (IH i H) as [H'|H']; [now left|right; now right].
Qed.

Lemma poll_returns deadline (st : AppState World) :
  fst (poll deadline st) = Ok (ShutdownDone (Ok tt)) ->
  shutdown_event (snd (poll deadline st)) = true.
Proof.
  unfold poll. unfold_monad.
  destruct (utcnow st <? deadline); [|reflexivity].
  destruct (is_empty st); [reflexivity|discriminate].
Qed.

Lemma shutdown_after_returns p (st : AppState World) :
  fst (shutdown_after p st) = Ok (ShutdownDone (Ok tt)) ->
  shutdown_event (snd (shutdown_after p st)) = true.
Proof.
  destruct p as [k|]; cbn [shutdown_after]; [discriminate|].
  rewrite bind_value with (a := shutdown_requested_at st) (st' := st) by reflexivity.
  destruct (shutdown_requested_at st) as [t|]; [apply poll_returns|discriminate].
Qed.

Lemma step_shutdown_returns t (st : AppState World) :
  fst (step_shutdown t st) = ShutdownDone (Ok tt) ->
  t = ShutdownDone (Ok tt) \/ shutdown_event (snd (step_shutdown t st)) = true.
Proof.
  set (P := fun r : result shutdown_coro * AppState World =>
              fst r = Ok (ShutdownDone (Ok tt)) -> shutdown_event (snd r) = true).
  assert (HP : (exists r, t = ShutdownDone r) \/ P (graceful_shutdown t st)).
  { destruct t as [|k|deadline wake|r]; cbn [graceful_shutdown].
    - right.
      rewrite bind_value with (a := utcnow st) (st' := st) by reflexivity.
      rewrite bind_modify, bind_logger.
      apply (post_bind P); [discriminate|]. intros p st'. exact (shutdown_after_returns p st').
    - right. apply (post_bind P); [discriminate|].
      intros p st'. exact (shutdown_after_returns p st').
    - right. exact (poll_returns deadline st).
    - left. now exists r. }
  unfold step_shutdown. destruct HP as [[r ->]|HP].
  - cbn. intros H. now left.
  - unfold P in HP. destruct (graceful_shutdown t st) as [[t'|e] st']; cbn in *.
    + intros ->. right. now apply HP.
    + discriminate.
Qed.

Lemma notify_loop_returns (st : AppState World) :
  fst (notify_loop st) = Ok (NotifyDone (Ok tt)) ->
  shutdown_event (snd (notify_loop st)) = true.
Proof.
  unfold notify_loop. unfold_monad.
  destruct (shutdown_event st) eqn:He; [intros _; exact He|discriminate].
Qed.

Lemma notify_after_returns p (st : AppState World) :
  fst (notify_after p st) = Ok (NotifyDone (Ok tt)) ->
  shutdown_event (snd (notify_after p st)) = true.
Proof.
  destruct p as [k|]; cbn [notify_after]; [discriminate|apply notify_loop_returns].
Qed.

Lemma step_notify_returns t (st : AppState World) :
  fst (step_notify t st) = NotifyDone (Ok tt) ->
  t = NotifyDone (Ok tt) \/ shutdown_event (snd (step_notify t st)) = true.
Proof.
  set (P := fun r : result notify_coro * AppState World =>
              fst r = Ok (NotifyDone (Ok tt)) -> shutdown_event (snd r) = true).
  assert (HP : (exists r, t = NotifyDone r) \/ P (notify_clients_periodically t st)).
  { destruct t as [|wake|k|r]; cbn [notify_clients_periodically].
    - right. exact (notify_loop_returns st).
    - right.
      rewrite bind_value with (a := count st) (st' := st) by reflexivity.
      destruct (0 <? count st); [|exact (notify_loop_returns st)].
      rewrite bind_logger.
      apply (post_bind P); [discriminate|]. intros p st'. exact (notify_after_returns p st').
    - right. apply (post_bind P); [discriminate|].
      intros p st'. exact (notify_after_returns p st').
    - left. now exists r. }
  unfold step_notify. destruct HP as [[r ->]|HP].
  - cbn. intros H. now left.
  - unfold P in HP. destruct (notify_clients_periodically t st) as [[t'|e] st']; cbn in *.
    + intros ->. right. now apply HP.
    + discriminate.
Qed.

Lemma lifespan_after_returns t (s : Server World) :
  notify_task (lifespan_after t s) = notify_task s /\
  shutdown_event (app (lifespan_after t s)) = shutdown_event (app s) /\
  (lifespan (lifespan_after t s) = AwaitingNotify \/
   lifespan (lifespan_after t s) = LifespanDone (Ok tt) ->
   t = ShutdownDone (Ok tt)).
Proof.
  unfold lifespan_after.
  destruct t as [|k|deadline wake|[[]|e]]; lazy beta iota;
    try (split; [reflexivity|split; [reflexivity|intros [H|H]; discriminate]]).
  unfold await_notify_task, cancel.
  destruct (notify_task s) as [|wake|k|[u|[]]] eqn:Hn; simpl; rewrite ?Hn; simpl;
    auto.
Qed.

Lemma concluded_step e (s s' : Server World) :
  concluded s -> step e s = Some s' -> concluded s'.
Proof.
  intros (H1 & H2 & H3) Hs.
  assert (Hm : shutdown_event (app s) = true -> shutdown_event (app s') = true)
    by (intros He; exact (proj1 (step_bound e s s' He Hs))).
  unfold concluded. revert Hs Hm. destruct e as [seconds| |i| |signum|i| |]; cbn [step].
  - intros [= <-] Hm. repeat split; intros H; solve [apply Hm; auto].
  - intros [= <-] Hm. repeat split; intros H; solve [apply Hm; auto].
  - destruct (nth_error (endpoints s) i) as [t|]; [|discriminate].
    destruct (endpoint_ready t); [|discriminate].
    destruct (step_endpoint t (app s)) as [t' st']. intros [= <-] Hm.
    repeat split; intros H; solve [apply Hm; auto].
  - destruct (notify_ready _ _ _); [|discriminate].
    destruct (cancel_requested s).
    + intros [= <-] Hm. repeat split; intros H; try discriminate; solve [apply Hm; auto].
    + pose proof (step_notify_returns (notify_task s) (app s)) as Hr.
      destruct (step_notify (notify_task s) (app s)) as [t' st']. intros [= <-] Hm.
      cbn in *. repeat split; intros H; try solve [apply Hm; auto].
      destruct (Hr H) as [Hd|He]; [apply Hm; auto|exact He].
  - unfold handle_signal. case_eq (shutdown_event (app s)); intros He.
    + intros [= <-] _. repeat split; intros _; exact He.
    + intros [= <-] _. simpl. repeat split; intros H; auto.
      apply in_app_or in H. destruct H as [H|[H|[]]]; [auto|discriminate].
  - destruct (nth_error (signal_tasks s) i) as [t|] eqn:Hn; [|discriminate].
    destruct (shutdown_ready _ t); [|discriminate].
    pose proof (step_shutdown_returns t (app s)) as Hr.
    destruct (step_shutdown t (app s)) as [t' st']. intros [= <-] Hm.
    cbn in *. repeat split; intros H; try solve [apply Hm; auto].
    apply In_set_nth in H. destruct H as [H|H]; [|apply Hm; auto].
    destruct (Hr (eq_sym H)) as [Hd|He]; [|exact He].
    apply Hm, H2. rewrite <- Hd. exact (nth_error_In _ _ Hn).
  - destruct (lifespan s) eqn:Hl; try discriminate.
    pose proof (step_shutdown_returns ShutdownCreated (app s)) as Hr.
    destruct (step_shutdown ShutdownCreated (app s)) as [t' st']. intros [= <-] Hm.
    destruct (lifespan_after_returns t' (with_app st' s)) as (Hk1 & Hk2 & Hk3).
    destruct (lifespan_after_keeps_tasks t' (with_app st' s)) as (Hk4 & _).
    cbn in *. repeat split; intros H.
    + apply Hm, H1. now rewrite <- Hk1.
    + apply Hm, H2. now rewrite <- Hk4.
    + rewrite Hk2. destruct (Hr (Hk3 H)) as [Hd|He]; [discriminate|exact He].
  - destruct (lifespan s) as [|t| |r] eqn:Hl; try discriminate.
    + destruct (shutdown_ready _ t) eqn:Hready; [|discriminate].
      pose proof (step_shutdown_returns t (app s)) as Hr.
      destruct (step_shutdown t (app s)) as [t' st']. intros [= <-] Hm.
      destruct (lifespan_after_returns t' (with_app st' s)) as (Hk1 & Hk2 & Hk3).
      destruct (lifespan_after_keeps_tasks t' (with_app st' s)) as (Hk4 & _).
      cbn in *. repeat split; intros H.
      * apply Hm, H1. now rewrite <- Hk1.
      * apply Hm, H2. now rewrite <- Hk4.
      * rewrite Hk2. destruct (Hr (Hk3 H)) as [Hd|He]; [|exact He].
        rewrite Hd in Hready. discriminate.
    + destruct (notify_task s) eqn:Hn; try discriminate. intros [= <-] Hm.
      assert (He : shutdown_event (app s) = true) by (apply H3; now left).
      specialize (Hm He). repeat split; intros _; exact Hm.
Qed.

(** X15: nothing returns before the event is set.  In every execution,
    once [notify_clients_periodically] has returned, or a
    [graceful_shutdown] started by a signal has returned, or [lifespan] has
    got past its own [graceful_shutdown], [shutdown_event] is set. *)
Theorem returned_only_with_the_event_set
  (events : list event) (now : datetime) (w : World) (s : Server World) :
  run events (startup now w) = Some s ->
  (notify_task s = NotifyDone (Ok tt) -> shutdown_event (app s) = true) /\
  (forall i, nth_error (signal_tasks s) i = Some (ShutdownDone (Ok tt)) ->
             shutdown_event (app s) = true) /\
  (lifespan s = AwaitingNotify \/ lifespan s = LifespanDone (Ok tt) ->
   shutdown_event (app s) = true).
Proof.
  intros Hrun.
  assert (H : concluded s).
  { assert (H0 : concluded (startup now w)).
    { unfold concluded. simpl. split; [discriminate|]. split; [tauto|].
      intros [H|H]; discriminate. }
    revert H0 Hrun. generalize (startup now w).
    induction events as [|e events IH]; intros s0 H0; simpl.
    - now intros [= <-].
    - destruct (step e s0) as [s1|] eqn:Hs; [|discriminate].
      apply IH. exact (concluded_step e s0 s1 H0 Hs). }
  destruct H as (H1 & H2 & H3). split; [exact H1|]. split; [|exact H3].
  intros i Hi. apply H2. exact (nth_error_In _ _ Hi).
Qed.

(** ** websocket_endpoint, when it ends *)

(** X16: the endpoint cleans up after [WebSocketDisconnect] only.  When
    [receive_text] raises anything else the endpoint ends with that
    exception and neither the registry nor the log changes: a websocket that
    was listed stays listed.  When [accept] raises, [connect] has appended
    nothing and logged nothing. *)
Theorem endpoint_cleans_up_only_on_disconnect
  (websocket : WebSocket) (st : AppState World) (e : exn) (w' : World) :
  e <> WebSocketDisconnect ->
  (receive_text websocket (world st) = (Raise e, w') ->
   step_endpoint (Receiving websocket) st = (EndpointDone (Raise e), set_world w' st)) /\
  (receive_text websocket (world st) = (Raise WebSocketDisconnect, w') ->
   fst (step_endpoint (Receiving websocket) st) = EndpointDone (Ok tt) /\
   snd (step_endpoint (Receiving websocket) st) =
     snd (disconnect websocket (set_world w' st))) /\
  (accept websocket (world st) = (Raise e, w') ->
   step_endpoint (Accepting websocket) st = (EndpointDone (Raise e), set_world w' st)).
Proof.
  intros Hne. unfold step_endpoint. cbn [websocket_endpoint].
  split; [|split].
  - intros Hr. rewrite bind_try. unfold await_receive_text. rewrite Hr.
    cbn [fst snd]. now destruct e.
  - intros Hr. rewrite bind_try. unfold await_receive_text. rewrite Hr.
    cbn [fst snd]. unfold bind.
    destruct (in_dec Nat.eq_dec websocket (active_connections (set_world w' st)))
      as [Hin|Hn].
    + destruct (disconnect_present websocket (set_world w' st) Hin)
        as (l' & _ & _ & ->). now split.
    + rewrite (disconnect_absent websocket (set_world w' st) Hn). now split.
  - intros Ha. unfold bind. now rewrite (connect_refused _ _ _ _ Ha).
Qed.

(** ** What is sent *)

Section Sent.

(** What has been sent, as far as the transport tells: [accept] and
    [receive_text] send nothing, [send_text] sends its text to its
    websocket, or fails to. *)
Variable sent : World -> list (WebSocket * string).
Hypothesis sent_accept : forall c w, sent (snd (accept c w)) = sent w.
Hypothesis sent_receive : forall c w, sent (snd (receive_text c w)) = sent w.
Hypothesis sent_send : forall c m w,
  sent (snd (send_text c m w)) = sent w \/
  sent (snd (send_text c m w)) = sent w ++ [(c, m)].

Lemma grows_same (a b : AppState World) : world b = world a -> grows sent a b.
Proof. intros H. exists []. rewrite H, app_nil_r. now split. Qed.

Lemma grows_trans (a b c : AppState World) :
  grows sent a b -> grows sent b c -> grows sent a c.
Proof.
  intros (m1 & E1 & F1) (m2 & E2 & F2). exists (m1 ++ m2).
  rewrite E2, E1, app_assoc. split; [reflexivity|]. apply Forall_app. now split.
Qed.

Lemma grows_send c m (st st' : AppState World) :
  known m ->
  world st' = snd (send_text c m (world st)) ->
  grows sent st st'.
Proof.
  intros Hk Hw. unfold grows. rewrite Hw.
  destruct (sent_send c m (world st)) as [E|E]; rewrite E.
  - exists []. rewrite app_nil_r. now split.
  - exists [(c, m)]. split; [reflexivity|]. constructor; [exact Hk|constructor].
Qed.

Lemma world_disconnect c (st : AppState World) :
  world (snd (disconnect c st)) = world st.
Proof.
  destruct (in_dec Nat.eq_dec c (active_connections st)) as [Hin|Hn].
  - destruct (disconnect_present c st Hin) as (l' & _ & _ & ->). reflexivity.
  - now rewrite (disconnect_absent c st Hn).
Qed.

Lemma world_disconnect_all d : forall st : AppState World,
  world (snd (disconnect_all d st)) = world st.
Proof.
  induction d as [|c d IH]; intros st; cbn [disconnect_all]; [reflexivity|].
  unfold bind. pose proof (world_disconnect c st) as H.
  destruct (disconnect c st) as [[u|e] st1]; simpl in *; [|exact H].
  now rewrite IH.
Qed.

Lemma broadcast_next_sent text i d (st : AppState World) :
  world (snd (broadcast_next text i d st)) = world st /\
  (forall k, fst (broadcast_next text i d st) = Ok (Sending k) -> message k = text).
Proof.
  unfold broadcast_next.
  rewrite bind_value with (a := active_connections st) (st' := st) by reflexivity.
  destruct (nth_error (active_connections st) i) as [c|].
  - split; [reflexivity|]. now intros k [= <-].
  - unfold bind. pose proof (world_disconnect_all d st) as H.
    destruct (disconnect_all d st) as [[u|e] st1]; simpl in *;
      (split; [exact H|discriminate]).
Qed.

Lemma broadcast_resume_sent k (st : AppState World) :
  known (message k) ->
  grows sent st (snd (broadcast_resume k st)) /\
  (forall k', fst (broadcast_resume k st) = Ok (Sending k') ->
              message k' = message k).
Proof.
  intros Hk. unfold broadcast_resume. rewrite bind_try. unfold await_send_text.
  assert (Hg : forall st' : AppState World,
             world st' = snd (send_text (connection k) (message k) (world st)) ->
             grows sent st st')
    by (intros st'; apply grows_send; exact Hk).
  destruct (send_text (connection k) (message k) (world st)) as [[u|e] w'];
    cbn [fst snd] in *.
  - destruct (broadcast_next_sent (message k) (next_index k) (disconnected k)
                (set_world w' st)) as [Hw Hm].
    split; [apply Hg; exact Hw|exact Hm].
  - destruct (is_Exception e).
    + rewrite bind_logger.
      destruct (broadcast_next_sent (message k) (next_index k)
                  (disconnected k ++ [connection k])
                  (add_log (ErrorBroadcasting e) (set_world w' st))) as [Hw Hm].
      split; [apply Hg; exact Hw|exact Hm].
    + split; [apply Hg; reflexivity|discriminate].
Qed.

Lemma poll_sent deadline (st : AppState World) :
  world (snd (poll deadline st)) = world st /\
  (forall t, fst (poll deadline st) = Ok t -> carries t).
Proof.
  unfold poll. unfold_monad.
  destruct (utcnow st <? deadline); [destruct (is_empty st)|];
    (split; [reflexivity|now intros t [= <-]]).
Qed.

Lemma shutdown_after_sent text p (st : AppState World) :
  known text ->
  (forall k, p = Sending k -> message k = text) ->
  world (snd (shutdown_after p st)) = world st /\
  (forall t, fst (shutdown_after p st) = Ok t -> carries t).
Proof.
  intros Hk Hp. destruct p as [k|]; cbn [shutdown_after].
  - split; [reflexivity|]. intros t [= <-]. simpl. now rewrite (Hp k eq_refl).
  - rewrite bind_value with (a := shutdown_requested_at st) (st' := st) by reflexivity.
    destruct (shutdown_requested_at st) as [t0|]; [apply poll_sent|].
    split; [reflexivity|discriminate].
Qed.

Lemma step_shutdown_sent t (st : AppState World) :
  carries t ->
  grows sent st (snd (step_shutdown t st)) /\ carries (fst (step_shutdown t st)).
Proof.
  intros Hc. unfold step_shutdown.
  destruct t as [|k|deadline wake|r]; cbn [graceful_shutdown].
  - rewrite bind_value with (a := utcnow st) (st' := st) by reflexivity.
    rewrite bind_modify, bind_logger. unfold broadcast_start, bind.
    set (st1 := add_log ShutdownSignalReceived (set_requested_at (utcnow st) st)).
    destruct (broadcast_next_sent shutdown_notice 0 [] st1) as [Hw Hm].
    destruct (broadcast_next shutdown_notice 0 [] st1) as [[p|e] st2]; simpl in *.
    + assert (Hk : known shutdown_notice) by (now right).
      destruct (shutdown_after_sent shutdown_notice p st2 Hk) as [Hw' Hc'].
      { intros k ->. exact (Hm k eq_refl). }
      destruct (shutdown_after p st2) as [[t'|e] st3]; simpl in *.
      * split; [apply grows_same; now rewrite Hw', Hw|now apply Hc'].
      * split; [apply grows_same; now rewrite Hw', Hw|exact I].
    + split; [apply grows_same; now rewrite Hw|exact I].
  - unfold bind. simpl in Hc.
    destruct (broadcast_resume_sent k st Hc) as [Hg Hm].
    destruct (broadcast_resume k st) as [[p|e] st2]; simpl in *.
    + destruct (shutdown_after_sent (message k) p st2 Hc) as [Hw' Hc'].
      { intros k' ->. exact (Hm k' eq_refl). }
      destruct (shutdown_after p st2) as [[t'|e] st3]; simpl in *.
      * split; [|now apply Hc'].
        apply (grows_trans st st2 st3); [exact Hg|now apply grows_same].
      * split; [|exact I].
        apply (grows_trans st st2 st3); [exact Hg|now apply grows_same].
    + split; [exact Hg|exact I].
  - destruct (poll_sent deadline st) as [Hw Hc'].
    destruct (poll deadline st) as [[t'|e] st2]; simpl in *.
    + split; [now apply grows_same|now apply Hc'].
    + split; [now apply grows_same|exact I].
  - split; [now apply grows_same|exact I].
Qed.

Lemma notify_loop_sent (st : AppState World) :
  world (snd (notify_loop st)) = world st /\
  (forall t, fst (notify_loop st) = Ok t -> notify_carries t).
Proof.
  unfold notify_loop. unfold_monad.
  destruct (shutdown_event st); (split; [reflexivity|now intros t [= <-]]).
Qed.

Lemma notify_after_sent text p (st : AppState World) :
  known text ->
  (forall k, p = Sending k -> message k = text) ->
  world (snd (notify_after p st)) = world st /\
  (forall t, fst (notify_after p st) = Ok t -> notify_carries t).
Proof.
  intros Hk Hp. destruct p as [k|]; cbn [notify_after]; [|apply notify_loop_sent].
  split; [reflexivity|]. intros t [= <-]. simpl. now rewrite (Hp k eq_refl).
Qed.

Lemma step_notify_sent t (st : AppState World) :
  notify_carries t ->
  grows sent st (snd (step_notify t st)) /\ notify_carries (fst (step_notify t st)).
Proof.
  intros Hc. unfold step_notify.
  assert (Hloop : forall st0 : AppState World,
             world st0 = world st ->
             grows sent st (snd (match notify_loop st0 with
                                 | (Ok t', st') => (t', st')
                                 | (Raise e, st') => (NotifyDone (Raise e), st')
                                 end)) /\
             notify_carries (fst (match notify_loop st0 with
                                  | (Ok t', st') => (t', st')
                                  | (Raise e, st') => (NotifyDone (Raise e), st')
                                  end))).
  { intros st0 H0. destruct (notify_loop_sent st0) as [Hw Hc'].
    destruct (notify_loop st0) as [[t'|e] st2]; simpl in *.
    - split; [apply grows_same; now rewrite Hw|now apply Hc'].
    - split; [apply grows_same; now rewrite Hw|exact I]. }
  destruct t as [|wake|k|r]; cbn [notify_clients_periodically].
  - now apply Hloop.
  - rewrite bind_value with (a := count st) (st' := st) by reflexivity.
    destruct (0 <? count st); [|now apply Hloop].
    rewrite bind_logger. unfold broadcast_start, bind.
    set (st1 := add_log (BroadcastingNotification (count st)) st).
    destruct (broadcast_next_sent test_notification 0 [] st1) as [Hw Hm].
    destruct (broadcast_next test_notification 0 [] st1) as [[p|e] st2]; simpl in *.
    + assert (Hk : known test_notification) by (now left).
      destruct (notify_after_sent test_notification p st2 Hk) as [Hw' Hc'].
      { intros k ->. exact (Hm k eq_refl). }
      destruct (notify_after p st2) as [[t'|e] st3]; simpl in *.
      * split; [apply grows_same; now rewrite Hw', Hw|now apply Hc'].
      * split; [apply grows_same; now rewrite Hw', Hw|exact I].
    + split; [apply grows_same; now rewrite Hw|exact I].
  - unfold bind. simpl in Hc.
    destruct (broadcast_resume_sent k st Hc) as [Hg Hm].
    destruct (broadcast_resume k st) as [[p|e] st2]; simpl in *.
    + destruct (notify_after_sent (message k) p st2 Hc) as [Hw' Hc'].
      { intros k' ->. exact (Hm k' eq_refl). }
      destruct (notify_after p st2) as [[t'|e] st3]; simpl in *.
      * split; [|now apply Hc'].
        apply (grows_trans st st2 st3); [exact Hg|now apply grows_same].
      * split; [|exact I].
        apply (grows_trans st st2 st3); [exact Hg|now apply grows_same].
    + split; [exact Hg|exact I].
  - split; [now apply grows_same|exact I].
Qed.

Lemma step_endpoint_sent t (st : AppState World) :
  sent (world (snd (step_endpoint t st))) = sent (world st).
Proof.
  unfold step_endpoint. destruct t as [c|c|r]; cbn [websocket_endpoint].
  - pose proof (sent_accept c (world st)) as Ha.
    destruct (accept c (world st)) as [[[]|e] w'] eqn:E; simpl in Ha.
    + rewrite (bind_value _ _ _ _ _ (connect_accepted _ _ _ E)). exact Ha.
    + unfold bind. rewrite (connect_refused _ _ _ _ E). exact Ha.
  - rewrite bind_try. unfold await_receive_text.
    pose proof (sent_receive c (world st)) as Hr.
    destruct (receive_text c (world st)) as [[text|e] w']; cbn [fst snd] in *;
      [exact Hr|].
    destruct e; try exact Hr.
    unfold bind. pose proof (world_disconnect c (set_world w' st)) as Hd.
    destruct (disconnect c (set_world w' st)) as [[u|e] st2]; simpl in *;
      now rewrite Hd.
  - reflexivity.
Qed.

Lemma Forall_set_nth {A} (P : A -> Prop) x l : forall i,
  Forall P l -> P x -> Forall P (set_nth i x l).
Proof.
  induction l as [|a l IH]; intros [|i] Hl Hx; simpl; trivial;
    inversion Hl; subst; constructor; auto.
Qed.

Lemma lifespan_after_sent t (s : Server World) :
  carries t -> sending_known s ->
  sending_known (lifespan_after t s) /\
  world (app (lifespan_after t s)) = world (app s).
Proof.
  intros Hc (H1 & H2 & H3).
  destruct (lifespan_after_returns t s) as (Hk1 & _ & _).
  destruct (lifespan_after_keeps_tasks t s) as (Hk2 & _ & _).
  unfold sending_known. rewrite Hk1, Hk2.
  assert (H : (forall t0, lifespan (lifespan_after t s) = ShuttingDown t0 -> t0 = t) /\
              world (app (lifespan_after t s)) = world (app s)).
  { unfold lifespan_after.
    destruct t as [|k|deadline wake|[[]|e]]; lazy beta iota;
      try (split; [intros t0 [= <-]; reflexivity|reflexivity]);
      try (split; [discriminate|reflexivity]).
    unfold await_notify_task, cancel.
    destruct (notify_task s) as [|wake|k|[u|[]]] eqn:Hn; simpl; rewrite ?Hn; simpl;
      (split; [discriminate|reflexivity]). }
  destruct H as [Hl Hw]. split; [|exact Hw].
  split; [exact H1|]. split; [exact H2|].
  intros t0 Ht0. now rewrite (Hl t0 Ht0).
Qed.

Lemma sent_step e (s s' : Server World) :
  sending_known s -> step e s = Some s' ->
  sending_known s' /\ grows sent (app s) (app s').
Proof.
  intros (H1 & H2 & H3).
  destruct e as [seconds| |i| |signum|i| |]; cbn [step].
  - intros [= <-]. split; [exact (conj H1 (conj H2 H3))|now apply grows_same].
  - intros [= <-]. split; [exact (conj H1 (conj H2 H3))|now apply grows_same].
  - destruct (nth_error (endpoints s) i) as [t|]; [|discriminate].
    destruct (endpoint_ready t); [|discriminate].
    pose proof (step_endpoint_sent t (app s)) as Hs.
    destruct (step_endpoint t (app s)) as [t' st']. intros [= <-].
    split; [exact (conj H1 (conj H2 H3))|].
    exists []. simpl in *. rewrite Hs, app_nil_r. now split.
  - destruct (notify_ready _ _ _); [|discriminate].
    destruct (cancel_requested s).
    + intros [= <-]. split; [exact (conj I (conj H2 H3))|now apply grows_same].
    + destruct (step_notify_sent (notify_task s) (app s) H1) as [Hg Hc].
      destruct (step_notify (notify_task s) (app s)) as [t' st']. intros [= <-].
      split; [exact (conj Hc (conj H2 H3))|exact Hg].
  - unfold handle_signal. destruct (shutdown_event (app s)); intros [= <-].
    + split; [exact (conj H1 (conj H2 H3))|now apply grows_same].
    + split; [|now apply grows_same].
      split; [exact H1|]. split; [|exact H3].
      simpl. apply Forall_app. split; [exact H2|]. now repeat constructor.
  - destruct (nth_error (signal_tasks s) i) as [t|] eqn:Hn; [|discriminate].
    destruct (shutdown_ready _ t); [|discriminate].
    assert (Ht : carries t).
    { rewrite Forall_forall in H2. apply H2. exact (nth_error_In _ _ Hn). }
    destruct (step_shutdown_sent t (app s) Ht) as [Hg Hc].
    destruct (step_shutdown t (app s)) as [t' st']. intros [= <-].
    split; [|exact Hg].
    split; [exact H1|]. split; [|exact H3].
    simpl. now apply Forall_set_nth.
  - destruct (lifespan s) eqn:Hl; try discriminate.
    destruct (step_shutdown_sent ShutdownCreated (app s) I) as [Hg Hc].
    destruct (step_shutdown ShutdownCreated (app s)) as [t' st']. intros [= <-].
    destruct (lifespan_after_sent t' (with_app st' s) Hc) as [Hk Hw].
    { split; [exact H1|]. split; [exact H2|]. simpl. now rewrite Hl. }
    split; [exact Hk|].
    apply (grows_trans _ st'); [exact Hg|now apply grows_same].
  - destruct (lifespan s) as [|t| |r] eqn:Hl; try discriminate.
    + destruct (shutdown_ready _ t); [|discriminate].
      destruct (step_shutdown_sent t (app s) (H3 t eq_refl)) as [Hg Hc].
      destruct (step_shutdown t (app s)) as [t' st']. intros [= <-].
      destruct (lifespan_after_sent t' (with_app st' s) Hc) as [Hk Hw].
      { split; [exact H1|]. split; [exact H2|]. simpl. rewrite Hl.
        intros t0 [= <-]. exact (H3 t eq_refl). }
      split; [exact Hk|].
      apply (grows_trans _ st'); [exact Hg|now apply grows_same].
    + destruct (notify_task s) as [| | |r] eqn:Hn; try discriminate. intros [= <-].
      unfold await_notify_task. rewrite Hn.
      destruct r as [u|[]]; unfold sending_known; simpl; rewrite ?Hn;
        (split; [|now apply grows_same]);
        (split; [exact I|]); (split; [exact H2|discriminate]).
Qed.

(** X17: the server sends nothing but its two texts.  In every execution,
    what has been sent since start-up is made of ["Test notification"] and
    of the notice of shutdown, whatever the clients send and whatever
    signals arrive. *)
Theorem only_the_two_texts_are_sent
  (events : list event) (now : datetime) (w : World) (s : Server World) :
  run events (startup now w) = Some s ->
  exists more,
    sent (world (app s)) = sent w ++ more /\
    Forall (fun p => snd p = test_notification \/ snd p = shutdown_notice) more.
Proof.
  intros Hrun.
  assert (H : sending_known s /\ grows sent (app (startup now w)) (app s)).
  { assert (H0 : sending_known (startup now w)).
    { split; [exact I|]. split; [constructor|discriminate]. }
    revert H0 Hrun. generalize (startup now w).
    induction events as [|e events IH]; intros s0 H0; simpl.
    - intros [= <-]. split; [exact H0|now apply grows_same].
    - destruct (step e s0) as [s1|] eqn:Hs; [|discriminate]. intros Hr.
      destruct (sent_step e s0 s1 H0 Hs) as [H1 Hg1].
      destruct (IH s1 H1 Hr) as [H2 Hg2].
      split; [exact H2|exact (grows_trans _ _ _ Hg1 Hg2)]. }
  destruct H as [_ (more & E & F)]. exists more. split; [exact E|exact F].
Qed.

End Sent.

End Further.

(** * The handshake *)

Section Accepted.

Context {World : Type} {transport : Transport World} {handshake : Handshake World}.

(** ** What a step does to the transport *)








(** ** Every listed websocket has been accepted *)


Lemma handshaken_same (st st' : AppState World) :
  handshaken st ->
  active_connections st' = active_connections st ->
  world st' = world st ->
  handshaken st'.
Proof. intros H Hl Hw c Hc. rewrite Hw. apply H. now rewrite <- Hl. Qed.





(** ** connect and the handshake *)


(** C10 (as the program has it): [connect] has no check of its own.  For a
    websocket whose [accept] returns it raises nothing, appends the
    websocket at the end of [active_connections] and logs the count, one
    more than before.  But the handshake is done once: a second [connect]
    of the same websocket raises the [RuntimeError] of its [accept], appends
    nothing and logs nothing, so that the count stays as the first left
    it. *)
Theorem connect_appends_once_accepted
  (websocket : WebSocket) (st : AppState World) (w' : World) :
  accept websocket (world st) = (Ok tt, w') ->
  let st' := snd (connect websocket st) in
  let st'' := snd (connect websocket st') in
  fst (connect websocket st) = Ok tt /\
  active_connections st' = active_connections st ++ [websocket] /\
  count st' = S (count st) /\
  log st' = log st ++ [ClientConnected (S (count st))] /\
  fst (connect websocket st') = Raise RuntimeError /\
  active_connections st'' = active_connections st ++ [websocket] /\
  count st'' = S (count st) /\
  log st'' = log st'.
Proof.
  intros Ha. cbv zeta. rewrite (connect_accepted _ _ _ Ha). cbn [fst snd].
  match goal with |- context [connect websocket ?x] => set (st1 := x) end.
  pose proof (accept_again websocket (world st1) (accept_marks _ _ _ Ha)) as Hr.
  destruct (accept websocket (world st1)) as [r w''] eqn:Hacc.
  simpl in Hr. subst r.
  rewrite (connect_refused _ _ _ _ Hacc). unfold st1, count. simpl.
  rewrite length_app. simpl.
  repeat split; trivial; lia.
Qed.

End Accepted.

(** * The handshake and the further properties on the [Net] and [Cut] transports *)

(** [1] is listed twice; the first entry goes, the second stays. *)
Lemma disconnect_drops_first_entry_only_witness :
  In 1 (active_connections (manager_on [2; 1; 3; 1] [])) /\
  exists pre post,
    active_connections (manager_on [2; 1; 3; 1] []) = pre ++ 1 :: post /\
    ~ In 1 pre /\
    disconnect 1 (manager_on [2; 1; 3; 1] []) =
      (Ok tt,
       add_log (ClientDisconnected (count (manager_on [2; 1; 3; 1] []) - 1))
         (set_connections (pre ++ post) (manager_on [2; 1; 3; 1] []))).
Proof.
  assert (H : In 1 (active_connections (manager_on [2; 1; 3; 1] [])))
    by (right; left; reflexivity).
  split; [exact H|].
  exact (disconnect_drops_first_entry_only 1 (manager_on [2; 1; 3; 1] []) H).
Defined.

Lemma connect_then_disconnect_restores_registry_witness :
  ~ In 4 (active_connections (manager_on [1; 2; 3] [])) /\
  fst (connect 4 (manager_on [1; 2; 3] [])) = Ok tt /\
  fst (disconnect 4 (snd (connect 4 (manager_on [1; 2; 3] [])))) = Ok tt /\
  active_connections (snd (disconnect 4 (snd (connect 4 (manager_on [1; 2; 3] []))))) =
    [1; 2; 3] /\
  log (snd (disconnect 4 (snd (connect 4 (manager_on [1; 2; 3] []))))) =
    [ClientConnected 4; ClientDisconnected 3].
Proof.
  assert (H : ~ In 4 (active_connections (manager_on [1; 2; 3] []))).
  { simpl. intros [H|[H|[H|[]]]]; discriminate. }
  split; [exact H|].
  exact (connect_then_disconnect_restores_registry 4 (manager_on [1; 2; 3] [])
           (Net.mk [] [] [1; 2; 3; 4]) H eq_refl).
Defined.

(** The task is cancelled at its second send: [1] has been sent to, [2] and
    [3] are skipped, nobody is removed. *)
Lemma broadcast_cut_short_removes_nobody_witness :
  forallb soft
    (send_outcomes "hello" (active_connections (manager_cut [1; 2; 3] 1))
                   (world (manager_cut [1; 2; 3] 1))) = false /\
  exists e st',
    broadcast "hello" (manager_cut [1; 2; 3] 1) = (Raise e, st') /\
    is_Exception e = false /\
    active_connections st' = active_connections (manager_cut [1; 2; 3] 1) /\
    effective_removes (log st') = effective_removes (log (manager_cut [1; 2; 3] 1)).
Proof.
  split; [reflexivity|].
  exact (broadcast_cut_short_removes_nobody "hello" (manager_cut [1; 2; 3] 1) eq_refl).
Defined.

(** The peer of [2] is gone: the pass goes on to [3] all the same. *)
Lemma broadcast_sends_to_every_member_once_witness :
  Forall send_failure_only
    (send_outcomes "hello" (active_connections (manager_on [1; 2; 3] [2]))
                   (world (manager_on [1; 2; 3] [2]))) /\
  world (snd (broadcast "hello" (manager_on [1; 2; 3] [2]))) =
    Net.mk [2] [(1, "hello"%string); (3, "hello"%string)] [1; 2; 3] /\
  map fst (send_outcomes "hello" (active_connections (manager_on [1; 2; 3] [2]))
                         (world (manager_on [1; 2; 3] [2]))) = [1; 2; 3].
Proof.
  assert (H : Forall send_failure_only
                (send_outcomes "hello" (active_connections (manager_on [1; 2; 3] [2]))
                               (world (manager_on [1; 2; 3] [2]))))
    by (repeat constructor).
  split; [exact H|].
  exact (broadcast_sends_to_every_member_once "hello" (manager_on [1; 2; 3] [2]) H).
Defined.

Lemma shutdown_of_empty_registry_ends_at_once_witness :
  active_connections (set_utcnow 7 (manager_on [] [])) = [] /\
  fst (step_shutdown ShutdownCreated (set_utcnow 7 (manager_on [] []))) =
    ShutdownDone (Ok tt) /\
  shutdown_event (snd (step_shutdown ShutdownCreated (set_utcnow 7 (manager_on [] [])))) =
    true /\
  shutdown_requested_at
    (snd (step_shutdown ShutdownCreated (set_utcnow 7 (manager_on [] [])))) = Some 7.
Proof.
  split; [reflexivity|].
  destruct (shutdown_of_empty_registry_ends_at_once (set_utcnow 7 (manager_on [] []))
              eq_refl) as (H1 & H2 & H3 & _).
  exact (conj H1 (conj H2 H3)).
Defined.

(** The shutdown event is set while the notifier sleeps, with two clients
    connected: the notifier broadcasts all the same. *)
Lemma notifier_wakes_up_witness :
  active_connections (set_event (manager_on [1; 2] [])) = [1; 2] /\
  step_notify (NotifySleeping 10) (set_event (manager_on [1; 2] [])) =
    (NotifySending (mkSending test_notification 1 1 []),
     add_log (BroadcastingNotification 2) (set_event (manager_on [1; 2] []))).
Proof.
  split; [reflexivity|].
  exact (proj2 (notifier_wakes_up 10 (set_event (manager_on [1; 2] []))) 1 [2] eq_refl).
Defined.

(** A client connects and stays, SIGTERM arrives: after 359 rounds of
    five seconds the event is still unset, the 360th sets it, thirty
    minutes after the signal, with the client still connected. *)
Lemma drain_ends_at_the_deadline_witness :
  exists s : Server Net.t,
    run [Open; Endpoint 0; Signal 15; SignalTask 0; SignalTask 0] (server_on []) =
      Some s /\
    nth_error (signal_tasks s) 0 = Some (ShutdownSleeping 1800 (utcnow (app s) + 5)) /\
    active_connections (app s) <> [] /\
    utcnow (app s) + 5 * 359 < 1800 /\
    1800 <= utcnow (app s) + 5 * 359 + 5 /\
    exists s1 s2,
      run (poll_rounds 0 359) s = Some s1 /\
      shutdown_event (app s1) = shutdown_event (app s) /\
      run (poll_rounds 0 1) s1 = Some s2 /\
      shutdown_event (app s2) = true /\
      nth_error (signal_tasks s2) 0 = Some (ShutdownDone (Ok tt)) /\
      utcnow (app s2) = utcnow (app s) + 5 * 359 + 5 /\
      active_connections (app s2) = active_connections (app s).
Proof.
  exists_run [Open; Endpoint 0; Signal 15; SignalTask 0; SignalTask 0] (server_on []).
  match goal with
  | |- run _ _ = Some ?s /\ ?H1 /\ ?H2 /\ ?H3 /\ ?H4 /\ _ =>
      assert (E1 : H1) by (vm_compute; reflexivity);
      assert (E2 : H2) by discriminate;
      assert (E3 : H3) by (apply Nat.ltb_lt; vm_compute; reflexivity);
      assert (E4 : H4) by (apply Nat.leb_le; vm_compute; reflexivity);
      split; [vm_compute; reflexivity|];
      split; [exact E1|]; split; [exact E2|]; split; [exact E3|]; split; [exact E4|];
      exact (drain_ends_at_the_deadline 359 0 1800 s E1 E2 E3 E4)
  end.
Defined.

(** Nobody has connected, the notifier sleeps, the server is told to exit. *)
Lemma idle_server_leaves_cleanly_witness :
  exists s : Server Net.t,
    run [Notify] (server_on []) = Some s /\
    notify_task s = NotifySleeping 10 /\
    exists s',
      run [Exit; Notify; Lifespan] s = Some s' /\
      lifespan s' = LifespanDone (Ok tt) /\
      notify_task s' = NotifyDone (Raise CancelledError) /\
      shutdown_event (app s') = true /\
      shutdown_requested_at (app s') = Some (utcnow (app s)) /\
      world (app s') = world (app s) /\
      log (app s') =
        log (app s) ++
        [ShutdownSignalReceived; AllClientsDisconnected; NotificationTaskCancelled].
Proof.
  exists_run [Notify] (server_on []).
  split; [vm_compute; reflexivity|]. split; [reflexivity|].
  match goal with
  | |- exists s', run _ ?s = _ /\ _ =>
      exact (idle_server_leaves_cleanly s 10 eq_refl eq_refl eq_refl eq_refl)
  end.
Defined.

(** The server has left its [yield] with nobody connected, so the event is
    set; two signals arrive afterwards. *)
Lemma no_shutdown_from_a_signal_once_the_event_is_set_witness :
  exists s : Server Net.t,
    run [Exit] (server_on []) = Some s /\
    shutdown_event (app s) = true /\
    exists s',
      run [Signal 15; Tick 3; Signal 2] s = Some s' /\
      shutdown_event (app s') = true /\
      List.length (signal_tasks s') = List.length (signal_tasks s).
Proof.
  exists_run [Exit] (server_on []).
  split; [vm_compute; reflexivity|]. split; [reflexivity|].
  match goal with
  | |- exists s', run _ ?s = _ /\ _ =>
      let r := eval vm_compute in (run [Signal 15; Tick 3; Signal 2] s) in
      match r with
      | Some ?s' =>
          exists s';
          assert (Hrun : run [Signal 15; Tick 3; Signal 2] s = Some s')
            by (vm_compute; reflexivity);
          split; [exact Hrun|];
          exact (no_shutdown_from_a_signal_once_the_event_is_set
                   [Signal 15; Tick 3; Signal 2] s s' eq_refl Hrun)
      end
  end.
Defined.

(** Two clients connect, the peer of the first is gone. *)
Lemma count_agrees_with_log_in_every_execution_witness :
  exists s : Server Net.t,
    run [Open; Endpoint 0; Open; Endpoint 1; Endpoint 0; Endpoint 1] (server_on [0]) =
      Some s /\
    count (app s) = adds (log (app s)) - effective_removes (log (app s)) /\
    effective_removes (log (app s)) <= adds (log (app s)).
Proof.
  exists_ran [Open; Endpoint 0; Open; Endpoint 1; Endpoint 0; Endpoint 1] (server_on [0]).
  exact (count_agrees_with_log_in_every_execution
           [Open; Endpoint 0; Open; Endpoint 1; Endpoint 0; Endpoint 1]
           0 (Net.mk [0] [] []) _ Hrun).
Defined.

Lemma registry_against_endpoints_witness :
  exists s : Server Net.t,
    run [Open; Endpoint 0; Open; Endpoint 1; Endpoint 0; Endpoint 1] (server_on [0]) =
      Some s /\
    (forall i, nth_error (endpoints s) i = Some (EndpointDone (Ok tt)) ->
               ~ In i (active_connections (app s))) /\
    (forall i, In i (active_connections (app s)) ->
               nth_error (endpoints s) i = Some (Receiving i) \/
               exists e, e <> WebSocketDisconnect /\
                         nth_error (endpoints s) i = Some (EndpointDone (Raise e))).
Proof.
  exists_ran [Open; Endpoint 0; Open; Endpoint 1; Endpoint 0; Endpoint 1] (server_on [0]).
  exact (registry_against_endpoints
           [Open; Endpoint 0; Open; Endpoint 1; Endpoint 0; Endpoint 1]
           0 (Net.mk [0] [] []) _ Hrun).
Defined.

Lemma registry_lists_no_websocket_twice_witness :
  exists s : Server Net.t,
    run [Open; Open; Endpoint 1; Endpoint 0; Open; Endpoint 2; Endpoint 1]
        (server_on [1]) = Some s /\
    NoDup (active_connections (app s)).
Proof.
  exists_ran [Open; Open; Endpoint 1; Endpoint 0; Open; Endpoint 2; Endpoint 1]
             (server_on [1]).
  exact (registry_lists_no_websocket_twice
           [Open; Open; Endpoint 1; Endpoint 0; Open; Endpoint 2; Endpoint 1]
           0 (Net.mk [1] [] []) _ Hrun).
Defined.

Lemma shutdown_event_implies_timestamp_witness :
  exists s : Server Net.t,
    run [Exit] (server_on []) = Some s /\
    status_shutdown_requested (get_status (app s)) = true /\
    status_shutdown_requested_at (get_status (app s)) <> None.
Proof.
  exists_ran [Exit] (server_on []).
  split; [reflexivity|].
  exact (shutdown_event_implies_timestamp [Exit] 0 (Net.mk [] [] []) _ Hrun eq_refl).
Defined.

(** The server leaves with nobody connected: its notifier is cancelled
    before it has run, [lifespan] returns, and the event is set. *)
Lemma returned_only_with_the_event_set_witness :
  exists s : Server Net.t,
    run [Exit; Notify; Lifespan] (server_on []) = Some s /\
    lifespan s = LifespanDone (Ok tt) /\
    shutdown_event (app s) = true.
Proof.
  exists_ran [Exit; Notify; Lifespan] (server_on []).
  split; [reflexivity|].
  exact (proj2 (proj2 (returned_only_with_the_event_set
                         [Exit; Notify; Lifespan] 0 (Net.mk [] [] []) _ Hrun))
           (or_intror eq_refl)).
Defined.

(** Two clients, a periodic broadcast, then SIGTERM and the notice. *)
Lemma only_the_two_texts_are_sent_witness :
  exists s : Server Net.t,
    run [Open; Endpoint 0; Open; Endpoint 1; Notify; Tick 10; Notify; Notify;
         Notify; Signal 15; SignalTask 0; SignalTask 0]
        (server_on [1]) = Some s /\
    exists more,
      Net.delivered (world (app s)) = Net.delivered (Net.mk [1] [] []) ++ more /\
      Forall (fun p => snd p = test_notification \/ snd p = shutdown_notice) more.
Proof.
  exists_ran [Open; Endpoint 0; Open; Endpoint 1; Notify; Tick 10; Notify; Notify;
              Notify; Signal 15; SignalTask 0; SignalTask 0]
             (server_on [1]).
  refine (only_the_two_texts_are_sent Net.delivered _ _ _
            [Open; Endpoint 0; Open; Endpoint 1; Notify; Tick 10; Notify; Notify;
             Notify; Signal 15; SignalTask 0; SignalTask 0]
            0 (Net.mk [1] [] []) _ Hrun).
  - intros c w. simpl. now destruct (Net.is_connected w c).
  - intros c w. simpl.
    destruct (Net.is_connected w c); [|reflexivity]. now destruct (Net.lost c w).
  - intros c m w. simpl.
    destruct (Net.is_connected w c); [|left; reflexivity].
    destruct (Net.lost c w); [left|right]; reflexivity.
Defined.

(** The endpoint of a listed websocket is cancelled at its
    [receive_text]: the websocket stays listed. *)
Lemma endpoint_cleans_up_only_on_disconnect_witness :
  CancelledError <> WebSocketDisconnect /\
  receive_text 1 (world (manager_cut [1; 2] 0)) =
    (Raise CancelledError, Cut.mk 0 [] [1; 2]) /\
  step_endpoint (Receiving 1) (manager_cut [1; 2] 0) =
    (EndpointDone (Raise CancelledError), manager_cut [1; 2] 0).
Proof.
  assert (H : CancelledError <> WebSocketDisconnect) by discriminate.
  split; [exact H|]. split; [reflexivity|].
  exact (proj1 (endpoint_cleans_up_only_on_disconnect 1 (manager_cut [1; 2] 0)
                  CancelledError (Cut.mk 0 [] [1; 2]) H) eq_refl).
Defined.


(** One client is connected and a second has opened [/ws]: the [connect]
    of its endpoint, and the same [connect] once more. *)
Lemma connect_appends_once_accepted_witness :
  exists s : Server Net.t,
    run [Open; Endpoint 0; Open] (server_on []) = Some s /\
    accept 1 (world (app s)) = (Ok tt, Net.mk [] [] [0; 1]) /\
    fst (connect 1 (app s)) = Ok tt /\
    active_connections (snd (connect 1 (app s))) = [0; 1] /\
    count (snd (connect 1 (app s))) = 2 /\
    fst (connect 1 (snd (connect 1 (app s)))) = Raise RuntimeError /\
    active_connections (snd (connect 1 (snd (connect 1 (app s))))) = [0; 1] /\
    count (snd (connect 1 (snd (connect 1 (app s))))) = 2.
Proof.
  exists_run [Open; Endpoint 0; Open] (server_on []).
  split; [vm_compute; reflexivity|].
  match goal with
  | |- ?A /\ _ => assert (H : A) by reflexivity; split; [exact H|]
  end.
  match type of H with
  | accept _ (world ?st) = _ =>
      destruct (connect_appends_once_accepted 1 st _ H)
        as (H1 & H2 & H3 & _ & H5 & H6 & H7 & _)
  end.
  split; [exact H1|]. split; [exact H2|]. split; [exact H3|]. split; [exact H5|].
  split; [exact H6|exact H7].
Defined.

(** C10, against the claim: a client is connected; [connect] on its
    websocket again raises, and the websocket is listed once, the count
    still [1]. *)
Lemma connect_twice_lists_once :
  exists s : Server Net.t,
    run [Open; Endpoint 0] (server_on []) = Some s /\
    active_connections (app s) = [0] /\
    fst (connect 0 (app s)) = Raise RuntimeError /\
    active_connections (snd (connect 0 (app s))) = [0] /\
    count (snd (connect 0 (app s))) = 1.
Proof.
  exists_run [Open; Endpoint 0] (server_on []).
  by_running.
Qed.
